(** * LinguaTube: the real-time voice-chat session (src/components/VoiceChat.tsx)

    A shallow embedding of the [VoiceChat] component's session logic: the
    React state ([status], [transcript], [error]), the nine [useRef] cells,
    and the handlers [cleanup], [handleStartChat], [handleStopChat] and the
    transport callbacks [onopen], [onmessage], [onerror], [onclose], the
    capture callback [onaudioprocess] and the playback ['ended'] listener.

    Every handler is a computation in a small state-and-exception monad over
    a [World]: the component's own state together with the log of calls it
    made to the browser and the SDK.  JavaScript [undefined]/[null] is
    [None]; a property access on [undefined] throws [TypeError].

    [handleStartChat] and [onmessage] wait at an [await].  Each is given as
    a whole, for the case in which nothing else is handled while it waits
    ([Event], [run]), and cut into the parts between its awaits, which other
    handlers may separate ([Segment], [interleaved]).

    A call to the browser completes without an exception, as the Web Audio
    and Media Capture interfaces say of the calls made here; what can fail is
    what a start waits for (the microphone, the audio contexts, [resume],
    [connect]), the functions of [utils/audioUtils], and the promises, whose
    rejection is a later event and not an exception of the caller. *)

From Stdlib Require Import List String Ascii Bool Arith NArith ZArith QArith Qminmax Lia.
Import ListNotations.
Close Scope Q_scope.
Open Scope string_scope.
Open Scope list_scope.

(** ** JavaScript values used by the component *)

(** [Math.max], [+] and the literal [0] on JavaScript numbers.  The handlers
    use nothing else of number arithmetic, so the number type stays abstract. *)
Class JsNumber (num : Type) := {
  num_zero : num;
  num_add : num -> num -> num;
  num_max : num -> num -> num
}.

(** Code units U+0000..U+00FF are the characters of [string]; of these,
    [String.prototype.trim] strips TAB, LF, VT, FF, CR, SP and NBSP. *)
Definition is_white_space (c : ascii) : bool :=
  let n := nat_of_ascii c in
  Nat.eqb n 9 || Nat.eqb n 10 || Nat.eqb n 11 || Nat.eqb n 12
  || Nat.eqb n 13 || Nat.eqb n 32 || Nat.eqb n 160.

Fixpoint trimStart (s : string) : string :=
  match s with
  | EmptyString => EmptyString
  | String c rest => if is_white_space c then trimStart rest else s
  end.

Fixpoint string_rev (s : string) : string :=
  match s with
  | EmptyString => EmptyString
  | String c rest => String.append (string_rev rest) (String c EmptyString)
  end.

Definition trimEnd (s : string) : string :=
  string_rev (trimStart (string_rev s)).

Definition trim (s : string) : string := trimEnd (trimStart s).

(** Whether a string is made of white space only. *)
Fixpoint blank (s : string) : bool :=
  match s with
  | EmptyString => true
  | String c rest => is_white_space c && blank rest
  end.

(** Truthiness of a string: every string but the empty one. *)
Definition truthy (s : string) : bool :=
  match s with
  | EmptyString => false
  | String _ _ => true
  end.

(** A [Set] of object references iterates in insertion order; [add] of a
    member and [delete] of a non-member change nothing. *)
Definition set_add (x : nat) (s : list nat) : list nat :=
  if existsb (Nat.eqb x) s then s else s ++ [x].

Definition set_delete (x : nat) (s : list nat) : list nat :=
  filter (fun y => negb (Nat.eqb x y)) s.

(** ** Types of the component *)

Inductive ChatStatus := Idle | Connecting | Active | Stopped | Error.

Inductive Speaker := user | model.

Record TranscriptEntry := { speaker : Speaker; text : string }.

(** *** Browser and SDK objects, by identity *)

Definition MediaStreamTrack := nat.
Record MediaStream := { getTracks : list MediaStreamTrack }.

Inductive AudioContextState := suspended | running | closed.
Record AudioContext := {
  context_id : nat;
  sampleRate : N;
  state : AudioContextState
}.

Definition ScriptProcessorNode := nat.
Definition AudioBufferSourceNode := nat.
(** The [Promise<LiveSession>] returned by [ai.live.connect]. *)
Definition SessionPromise := nat.

(** The SDK's [Blob]: the outbound PCM frame and the inbound [inlineData]. *)
Record Blob := { data : string; mimeType : string }.

(** *** The inbound message, every field optional as the handler treats it *)

Record Transcription := { fragment : string }.
Record Part := { inlineData : option Blob }.
Record Content := { parts : option (list Part) }.
Record LiveServerContent := {
  outputTranscription : option Transcription;
  inputTranscription : option Transcription;
  turnComplete : option bool;
  modelTurn : option Content
}.
Record LiveServerMessage := { serverContent : option LiveServerContent }.

(** *** The lesson, as far as the component reads it *)

Record VocabularyItem := { word : string }.
Record Vocabulary := {
  general : list VocabularyItem;
  specialized : list VocabularyItem
}.
Record Lesson := { title : string; vocabulary : Vocabulary }.

(** ** Completions *)

Inductive JsError :=
| TypeError
| DOMException (name : string).

Inductive Completion (A : Type) :=
| Normal (a : A)
| Throw (e : JsError).
Arguments Normal {A} a.
Arguments Throw {A} e.

Definition is_throw {A} (c : Completion A) : bool :=
  match c with
  | Normal _ => false
  | Throw _ => true
  end.

(** The decoded [AudioBuffer]; the component reads its [duration] only. *)
Record AudioBuffer (num : Type) := { duration : num }.
Arguments duration {num} a.
Arguments Build_AudioBuffer {num} duration.

(** What the browser and the SDK answer to the calls of one start: the
    microphone request, the two [AudioContext] constructors, [resume] and
    [ai.live.connect]. *)
Record StartEnv := {
  answer_getUserMedia : Completion MediaStream;
  answer_inputAudioContext : Completion AudioContext;
  answer_outputAudioContext : Completion AudioContext;
  answer_resume : Completion unit;
  answer_connect : Completion SessionPromise
}.

(** * Saved lessons (src/utils/storage.ts) *)

Module Storage.

(** ** JavaScript objects used as records from string keys

    The own properties in insertion order.  [get] and [set] are the reading
    and the writing of an own property; they are all there is to [d[k]] for
    a key that is no property name of [Object.prototype] and no array index,
    as is the case of a URL that passed the validation of the form (it
    holds a slash).  [saveLessonForVideo] gets its URL from the form as it
    stands and its title from the model, neither of them validated: there
    [inherited] and [assign] give what [d[k]] does for the other keys. *)

Definition Dict (V : Type) : Type := list (string * V).

(** [d[k]] *)
Fixpoint get {V} (k : string) (d : Dict V) : option V :=
  match d with
  | [] => None
  | (k', v) :: rest => if String.eqb k k' then Some v else get k rest
  end.

(** [d[k] = v]: an own property keeps its place, a new one comes last. *)
Fixpoint set {V} (k : string) (v : V) (d : Dict V) : Dict V :=
  match d with
  | [] => [(k, v)]
  | (k', v') :: rest =>
      if String.eqb k k' then (k', v) :: rest else (k', v') :: set k v rest
  end.

(** The property names every object inherits from [Object.prototype].  Read
    through [d[k]] on an object without such an own property, each gives a
    function (or, for [__proto__], the prototype itself): a truthy value that
    has no property [lessons]. *)
Definition inherited (k : string) : bool :=
  existsb (String.eqb k)
    [ "constructor"; "__proto__"; "hasOwnProperty"; "isPrototypeOf";
      "propertyIsEnumerable"; "toLocaleString"; "toString"; "valueOf";
      "__defineGetter__"; "__defineSetter__"; "__lookupGetter__";
      "__lookupSetter__" ].
Arguments inherited : simpl never.

(** [d[k] = v] for an object [v] and any key: on an object without an own
    property [__proto__] the assignment to that key runs the inherited
    setter, which changes the prototype and adds no own property, so that
    [JSON.stringify] writes the object as it was. *)
Definition assign {V} (k : string) (v : V) (d : Dict V) : Dict V :=
  match get k d with
  | Some _ => set k v d
  | None => if String.eqb k "__proto__" then d else set k v d
  end.

(** [Object.values(d)] *)
Definition values {V} (d : Dict V) : list V := map snd d.

(** ** The stored data (src/types.ts) *)

Record VideoChapter := {
  timestamp : string;
  title : string;
  summary : string
}.

Record SavedLessonData := {
  url : string;
  transcript : string;
  chapters : list VideoChapter;
  lessons : Dict Lesson
}.

Definition Saved : Type := Dict SavedLessonData.

(** ** The browser *)

(** [JSON.parse] and [JSON.stringify] on the stored value, and whether a
    value fits the quota of [localStorage].  A string that parses is taken to
    parse to a record of saved lessons: this module is the only writer of
    its key. *)
Class Browser := {
  JSON_parse : string -> Completion Saved;
  JSON_stringify : Saved -> string;
  fits : string -> bool
}.

Inductive ConsoleLine :=
| console_error (what : string)
| console_warn (what : string).

(** The item under [STORAGE_KEY] and the console, oldest line first. *)
Record Store := {
  item : option string;
  console : list ConsoleLine
}.

Definition log (line : ConsoleLine) (st : Store) : Store :=
  {| item := item st; console := console st ++ [line] |}.

(** [localStorage.setItem(STORAGE_KEY, value)]: [QuotaExceededError] when the
    value does not fit. *)
Definition setItem {B : Browser} (value : string) (st : Store)
  : Completion unit * Store :=
  if fits value
  then (Normal tt, {| item := Some value; console := console st |})
  else (Throw (DOMException "QuotaExceededError"), st).

(** ** The four functions *)

(** Lines 5-13. *)
Definition getSavedLessons {B : Browser} (st : Store) : Saved * Store :=
  match item st with
  | Some savedData =>
      if truthy savedData then
        match JSON_parse savedData with
        | Normal data => (data, st)
        | Throw _ =>
            ([], log (console_error
                        "Failed to retrieve saved lessons from localStorage:")
                   st)
        end
      else ([], st)
  | None => ([], st)
  end.

(** Lines 15-31. *)
Definition saveVideoAnalysis {B : Browser}
  (url' transcript' : string) (chapters' : list VideoChapter) (st : Store)
  : Store :=
  let (allData, st1) := getSavedLessons st in
  let existingData :=
    match get url' allData with
    | Some data => data
    | None => {| url := url'; transcript := transcript'; chapters := [];
                 lessons := [] |}
    end in
  let allData' :=
    set url' {| url := url'; transcript := transcript';
                chapters := chapters'; lessons := lessons existingData |}
      allData in
  match setItem (JSON_stringify allData') st1 with
  | (Normal _, st2) => st2
  | (Throw _, st2) =>
      log (console_error "Failed to save video analysis to localStorage:") st2
  end.

(** Lines 33-46.  When [allData] has no own property [url] but inherits
    one, [allData[url]] is truthy and [allData[url].lessons] is [undefined]:
    the assignment of line 37 throws [TypeError], caught at line 43. *)
Definition saveLessonForVideo {B : Browser}
  (url' : string) (chapter : VideoChapter) (lesson : Lesson) (st : Store)
  : Store :=
  let (allData, st1) := getSavedLessons st in
  match get url' allData with
  | Some data =>
      let allData' :=
        set url' {| url := url data; transcript := transcript data;
                    chapters := chapters data;
                    lessons := assign (title chapter) lesson (lessons data) |}
          allData in
      match setItem (JSON_stringify allData') st1 with
      | (Normal _, st2) => st2
      | (Throw _, st2) =>
          log (console_error "Failed to save lesson to localStorage:") st2
      end
  | None =>
      if inherited url'
      then log (console_error "Failed to save lesson to localStorage:") st1
      else log (console_warn
                  (String.append
                     "Attempted to save a lesson for a video that hasn't been analyzed: "
                     url'))
             st1
  end.

(** Lines 48-54. *)
Definition clearAllSavedData (st : Store) : Store :=
  {| item := None; console := console st |}.

(** ** The rows of a saved video (src/components/SavedLessons.tsx, lines
    35-55): each chapter with the lesson stored under its title, if any. *)
Definition rows (data : SavedLessonData)
  : list (VideoChapter * option Lesson) :=
  map (fun chapter => (chapter, get (title chapter) (lessons data)))
    (chapters data).

(** ** A concrete store for the examples: a codec that knows two values *)

Definition sample_chapter : VideoChapter :=
  {| timestamp := "00:00"; title := "Saludos"; summary := "Greetings" |}.

Definition sample_url : string := "https://youtu.be/abc".

Definition sample_analysed : Saved :=
  [ (sample_url,
     {| url := sample_url; transcript := "hola"; chapters := [sample_chapter];
        lessons := [] |}) ].

Definition sample_with_lesson (lesson : Lesson) : Saved :=
  [ (sample_url,
     {| url := sample_url; transcript := "hola"; chapters := [sample_chapter];
        lessons := [("Saludos", lesson)] |}) ].

Definition sample_browser (lesson : Lesson) : Browser :=
  {| JSON_parse := fun s =>
       if String.eqb s "analysed" then Normal sample_analysed
       else if String.eqb s "with lesson" then Normal (sample_with_lesson lesson)
       else Throw (DOMException "SyntaxError");
     JSON_stringify := fun d =>
       match d with
       | [(_, data)] =>
           match lessons data with
           | [] => "analysed"
           | _ => "with lesson"
           end
       | _ => "something else"
       end;
     fits := fun s => Nat.leb (String.length s) 11 |}.

(** A browser whose storage accepts nothing. *)
Definition full_browser : Browser :=
  {| JSON_parse := fun _ => Throw (DOMException "SyntaxError");
     JSON_stringify := fun _ => "{}";
     fits := fun _ => false |}.

End Storage.

(** * The form and its handlers (src/App.tsx) *)

Module App.

(** ** Regular expressions, as far as [youtubeRegex] uses them

    [test] on a pattern anchored by [^] and [$], without flags: the whole
    string must match, and [.] matches every character but a line
    terminator (of the characters of [ascii], line feed and carriage
    return). *)

Inductive Regex :=
| Eps
| Chr (c : ascii)
| Dot
| Seq (r1 r2 : Regex)
| Alt (r1 r2 : Regex)
| Star (r : Regex)
| Nothing.

Fixpoint literal (s : string) : Regex :=
  match s with
  | EmptyString => Eps
  | String c rest => Seq (Chr c) (literal rest)
  end.

(** [r?] and [r+] *)
Definition optional (r : Regex) : Regex := Alt r Eps.
Definition one_or_more (r : Regex) : Regex := Seq r (Star r).

Definition line_terminator (c : ascii) : bool :=
  let n := nat_of_ascii c in Nat.eqb n 10 || Nat.eqb n 13.

Fixpoint nullable (r : Regex) : bool :=
  match r with
  | Eps => true
  | Chr _ => false
  | Dot => false
  | Seq r1 r2 => nullable r1 && nullable r2
  | Alt r1 r2 => nullable r1 || nullable r2
  | Star _ => true
  | Nothing => false
  end.

(** What is left of [r] to match after the character [c]. *)
Fixpoint after (c : ascii) (r : Regex) : Regex :=
  match r with
  | Eps => Nothing
  | Chr c' => if Ascii.eqb c c' then Eps else Nothing
  | Dot => if line_terminator c then Nothing else Eps
  | Seq r1 r2 =>
      if nullable r1
      then Alt (Seq (after c r1) r2) (after c r2)
      else Seq (after c r1) r2
  | Alt r1 r2 => Alt (after c r1) (after c r2)
  | Star r1 => Seq (after c r1) (Star r1)
  | Nothing => Nothing
  end.

Fixpoint matches (r : Regex) (s : string) : bool :=
  match s with
  | EmptyString => nullable r
  | String c rest => matches (after c r) rest
  end.

(** The strings a pattern stands for. *)
Inductive denotes : Regex -> string -> Prop :=
| denotes_eps : denotes Eps ""
| denotes_chr c : denotes (Chr c) (String c "")
| denotes_dot c : line_terminator c = false -> denotes Dot (String c "")
| denotes_seq r1 r2 s1 s2 :
    denotes r1 s1 -> denotes r2 s2 -> denotes (Seq r1 r2) (String.append s1 s2)
| denotes_alt_l r1 r2 s : denotes r1 s -> denotes (Alt r1 r2) s
| denotes_alt_r r1 r2 s : denotes r2 s -> denotes (Alt r1 r2) s
| denotes_star_nil r : denotes (Star r) ""
| denotes_star_more r s1 s2 :
    denotes r s1 -> denotes (Star r) s2 ->
    denotes (Star r) (String.append s1 s2).

(** Line 42: [/^(https?:\/\/)?(www\.)?(youtube\.com|youtu\.?be)\/.+$/]. *)
Definition youtubeRegex : Regex :=
  Seq (optional (Seq (literal "http")
                   (Seq (optional (Chr "s")) (literal "://"))))
    (Seq (optional (literal "www."))
       (Seq (Alt (literal "youtube.com")
               (Seq (literal "youtu")
                  (Seq (optional (Chr ".")) (literal "be"))))
          (Seq (Chr "/") (one_or_more Dot)))).

Definition test (r : Regex) (s : string) : bool := matches r s.

(** Whether a string has no line terminator. *)
Fixpoint one_line (s : string) : bool :=
  match s with
  | EmptyString => true
  | String c rest => negb (line_terminator c) && one_line rest
  end.

(** ** The state of the form *)

Record Language := { name : string; code : string }.

Inductive Level := Beginner | Advanced.

Record AppState := {
  nativeLanguage : Language;
  targetLanguage : Language;
  level : Level;
  youtubeUrl : string;
  transcript : string;
  chapters : option (list Storage.VideoChapter);
  selectedChapter : option Storage.VideoChapter;
  lesson : option Lesson;
  isAnalyzing : bool;
  isGenerating : bool;
  error : option string;
  savedLessonsData : Storage.Saved
}.

(** The calls to [services/geminiService], with the URL and transcript they
    were made for. *)
Inductive Request :=
| getVideoChapters (url transcript : string)
| generateLesson (url transcript : string) (chapter : Storage.VideoChapter).

(** What a call to the service ends with: its value, or the [Error] it
    throws. *)
Inductive Answer (A : Type) :=
| answered (a : A)
| failed (message : string).
Arguments answered {A} a.
Arguments failed {A} message.

(** The form, the browser's store and console, and the requests made.  A
    handler is followed from the click to the end of its [finally] block,
    with the answer of the service given; no other handler runs in
    between. *)
Record World := {
  state : AppState;
  store : Storage.Store;
  requests : list Request
}.

Definition with_error (e : option string) (a : AppState) : AppState :=
  {| nativeLanguage := nativeLanguage a; targetLanguage := targetLanguage a;
     level := level a; youtubeUrl := youtubeUrl a;
     transcript := transcript a; chapters := chapters a;
     selectedChapter := selectedChapter a; lesson := lesson a;
     isAnalyzing := isAnalyzing a; isGenerating := isGenerating a;
     error := e; savedLessonsData := savedLessonsData a |}.

(** ** [handleAnalyzeVideo] (lines 36-68) *)

Definition handleAnalyzeVideo {B : Storage.Browser}
  (answer : Answer (list Storage.VideoChapter)) (w : World) : World :=
  let a := state w in
  if negb (truthy (youtubeUrl a)) then
    {| state := with_error (Some "Please enter a YouTube URL.") a;
       store := store w; requests := requests w |}
  else if negb (test youtubeRegex (youtubeUrl a)) then
    {| state := with_error (Some "Please enter a valid YouTube URL.") a;
       store := store w; requests := requests w |}
  else if negb (truthy (trim (transcript a))) then
    {| state := with_error (Some "Please paste the video transcript.") a;
       store := store w; requests := requests w |}
  else
    let asked := requests w ++ [getVideoChapters (youtubeUrl a) (transcript a)] in
    match answer with
    | answered videoChapters =>
        let saved :=
          Storage.saveVideoAnalysis (youtubeUrl a) (transcript a)
            videoChapters (store w) in
        let (read, saved') := Storage.getSavedLessons saved in
        {| state :=
             {| nativeLanguage := nativeLanguage a;
                targetLanguage := targetLanguage a;
                level := level a; youtubeUrl := youtubeUrl a;
                transcript := transcript a;
                chapters := Some videoChapters;
                selectedChapter := None; lesson := None;
                isAnalyzing := false; isGenerating := isGenerating a;
                error := None; savedLessonsData := read |};
           store := saved'; requests := asked |}
    | failed message =>
        {| state :=
             {| nativeLanguage := nativeLanguage a;
                targetLanguage := targetLanguage a;
                level := level a; youtubeUrl := youtubeUrl a;
                transcript := transcript a;
                chapters := None; selectedChapter := None; lesson := None;
                isAnalyzing := false; isGenerating := isGenerating a;
                error :=
                  Some "Failed to analyze the video. Please check the transcript and try again.";
                savedLessonsData := savedLessonsData a |};
           store := Storage.log (Storage.console_error message) (store w);
           requests := asked |}
    end.

(** ** [handleGenerateLesson] (lines 70-87) *)

Definition handleGenerateLesson {B : Storage.Browser}
  (chapter : Storage.VideoChapter) (answer : Answer Lesson) (w : World)
  : World :=
  let a := state w in
  let asked :=
    requests w ++ [generateLesson (youtubeUrl a) (transcript a) chapter] in
  match answer with
  | answered generatedLesson =>
      let saved :=
        Storage.saveLessonForVideo (youtubeUrl a) chapter generatedLesson
          (store w) in
      let (read, saved') := Storage.getSavedLessons saved in
      {| state :=
           {| nativeLanguage := nativeLanguage a;
              targetLanguage := targetLanguage a;
              level := level a; youtubeUrl := youtubeUrl a;
              transcript := transcript a; chapters := chapters a;
              selectedChapter := Some chapter;
              lesson := Some generatedLesson;
              isAnalyzing := isAnalyzing a; isGenerating := false;
              error := None; savedLessonsData := read |};
         store := saved'; requests := asked |}
  | failed message =>
      {| state :=
           {| nativeLanguage := nativeLanguage a;
              targetLanguage := targetLanguage a;
              level := level a; youtubeUrl := youtubeUrl a;
              transcript := transcript a; chapters := chapters a;
              selectedChapter := Some chapter; lesson := None;
              isAnalyzing := isAnalyzing a; isGenerating := false;
              error := Some "Failed to generate the lesson for this chapter.";
              savedLessonsData := savedLessonsData a |};
         store := Storage.log (Storage.console_error message) (store w);
         requests := asked |}
  end.

(** ** [handleLoadLesson] (lines 89-102) and [handleClearSaved] (104-107) *)

Definition handleLoadLesson (data : Storage.SavedLessonData)
  (lessonToLoad : Lesson) (chapterForLesson : Storage.VideoChapter)
  (w : World) : World :=
  let a := state w in
  {| state :=
       {| nativeLanguage := nativeLanguage a;
          targetLanguage := targetLanguage a;
          level := level a; youtubeUrl := Storage.url data;
          transcript := Storage.transcript data;
          chapters := Some (Storage.chapters data);
          selectedChapter := Some chapterForLesson;
          lesson := Some lessonToLoad;
          isAnalyzing := isAnalyzing a; isGenerating := isGenerating a;
          error := None; savedLessonsData := savedLessonsData a |};
     store := store w; requests := requests w |}.

Definition handleClearSaved (w : World) : World :=
  let a := state w in
  {| state :=
       {| nativeLanguage := nativeLanguage a;
          targetLanguage := targetLanguage a;
          level := level a; youtubeUrl := youtubeUrl a;
          transcript := transcript a; chapters := chapters a;
          selectedChapter := selectedChapter a; lesson := lesson a;
          isAnalyzing := isAnalyzing a; isGenerating := isGenerating a;
          error := error a; savedLessonsData := [] |};
     store := Storage.clearAllSavedData (store w); requests := requests w |}.

(** ** A form for the examples *)

Definition sample_form : AppState :=
  {| nativeLanguage := {| name := "English"; code := "en" |};
     targetLanguage := {| name := "Spanish"; code := "es" |};
     level := Beginner;
     youtubeUrl := "https://youtu.be/abc"; transcript := "hola";
     chapters := None; selectedChapter := None; lesson := None;
     isAnalyzing := false; isGenerating := false; error := None;
     savedLessonsData := [] |}.

Definition sample_mobile_form : AppState :=
  {| nativeLanguage := {| name := "English"; code := "en" |};
     targetLanguage := {| name := "Spanish"; code := "es" |};
     level := Beginner;
     youtubeUrl := "https://m.youtube.com/watch?v=abc"; transcript := "hola";
     chapters := None; selectedChapter := None; lesson := None;
     isAnalyzing := false; isGenerating := false; error := None;
     savedLessonsData := [] |}.

Definition sample_world (a : AppState) (saved : option string) : World :=
  {| state := a;
     store := {| Storage.item := saved; Storage.console := [] |};
     requests := [] |}.

End App.

(** * An exercise card (LessonDisplay, in src/components/SavedLessons.tsx,
    lines 107-163) *)

Module Exercises.

(** The fields of an exercise that the card's logic reads. *)
Record Exercise := {
  options : option (list string);
  answer : option string
}.

Record Card := {
  selectedOption : option string;
  isAnswered : bool
}.

Definition fresh_card : Card :=
  {| selectedOption := None; isAnswered := false |}.

(** [option === value] for a [value] that may be [null] or [undefined]. *)
Definition same (option : string) (value : Datatypes.option string) : bool :=
  match value with
  | Some v => String.eqb option v
  | None => false
  end.

(** Lines 115-120. *)
Definition getOptionClass (exercise : Exercise) (card : Card)
  (option : string) : string :=
  if negb (isAnswered card) then "hover:bg-gray-700"
  else if same option (answer exercise)
       then "bg-green-800/50 border-green-600"
  else if same option (selectedOption card)
          && negb (same option (answer exercise))
       then "bg-red-800/50 border-red-600"
  else "border-gray-600".

(** The two buttons: an option (line 135) and [Check Answer] (line 142),
    which is disabled while no option is selected or once answered. *)
Inductive Click :=
| click_option (option : string)
| click_check.

Definition click (card : Card) (c : Click) : Card :=
  match c with
  | click_option option =>
      if isAnswered card then card
      else {| selectedOption := Some option; isAnswered := isAnswered card |}
  | click_check =>
      if isAnswered card
         || negb match selectedOption card with
                 | Some o => truthy o
                 | None => false
                 end
      then card
      else {| selectedOption := selectedOption card; isAnswered := true |}
  end.

End Exercises.

(** ** Messages used below *)

Definition no_content : LiveServerContent :=
  {| outputTranscription := None; inputTranscription := None;
     turnComplete := None; modelTurn := None |}.

(** A model turn whose first part is text, with no [inlineData]. *)
Definition message_part_without_inlineData : LiveServerMessage :=
  {| serverContent :=
       Some {| outputTranscription := None; inputTranscription := None;
               turnComplete := None;
               modelTurn := Some {| parts := Some [ {| inlineData := None |} ] |}
            |} |}.

(** A model turn with no [parts]. *)
Definition message_turn_without_parts : LiveServerMessage :=
  {| serverContent :=
       Some {| outputTranscription := None; inputTranscription := None;
               turnComplete := None;
               modelTurn := Some {| parts := None |} |} |}.

Definition audio_message (base64 : string) : LiveServerMessage :=
  {| serverContent :=
       Some {| outputTranscription := None; inputTranscription := None;
               turnComplete := None;
               modelTurn :=
                 Some {| parts :=
                           Some [ {| inlineData :=
                                       Some {| data := base64;
                                               mimeType := "audio/pcm;rate=24000" |}
                                  |} ] |} |} |}.

(** ** A concrete instance: exact rational numbers, and stand-ins for the
    three functions of [utils/audioUtils] *)

#[export] Instance JsNumber_Q : JsNumber Q :=
  {| num_zero := 0%Q; num_add := Qplus; num_max := Qmax |}.

Definition sample_lesson : Lesson :=
  {| title := "Mercado";
     vocabulary := {| general := [ {| word := "hola" |}; {| word := "pan" |} ];
                      specialized := [ {| word := "kilo" |} ] |} |}.

(** One character per sample. *)
Definition sample_createPcmBlob (inputData : list Q) : Blob :=
  {| data := string_of_list_ascii
               (map (fun q => ascii_of_N (Z.to_N (Qnum q))) inputData);
     mimeType := "audio/pcm;rate=16000" |}.

Definition sample_decode (base64 : string) : Completion (list nat) :=
  Normal (map nat_of_ascii (list_ascii_of_string base64)).

(** A tenth of a second per byte. *)
Definition sample_decodeAudioData
  (bytes : list nat) (ctx : AudioContext) (rate channels : N)
  : Completion (AudioBuffer Q) :=
  Normal {| duration := (Z.of_nat (List.length bytes) # 10)%Q |}.

Definition sample_stream : MediaStream := {| getTracks := [7] |}.

Definition answers_ok : StartEnv :=
  {| answer_getUserMedia := Normal sample_stream;
     answer_inputAudioContext :=
       Normal {| context_id := 1; sampleRate := 16000; state := running |};
     answer_outputAudioContext :=
       Normal {| context_id := 2; sampleRate := 24000; state := suspended |};
     answer_resume := Normal tt;
     answer_connect := Normal 3 |}.

(** The microphone is refused. *)
Definition answers_microphone_denied : StartEnv :=
  {| answer_getUserMedia := Throw (DOMException "NotAllowedError");
     answer_inputAudioContext := answer_inputAudioContext answers_ok;
     answer_outputAudioContext := answer_outputAudioContext answers_ok;
     answer_resume := Normal tt;
     answer_connect := Normal 3 |}.

(** The microphone is granted and the first [AudioContext] cannot be built. *)
Definition answers_no_audio_graph : StartEnv :=
  {| answer_getUserMedia := Normal sample_stream;
     answer_inputAudioContext := Throw (DOMException "NotSupportedError");
     answer_outputAudioContext := answer_outputAudioContext answers_ok;
     answer_resume := Normal tt;
     answer_connect := Normal 3 |}.

Section VoiceChat.

Context {num : Type} {JN : JsNumber num}.

(** [lesson] is the component's prop.  [utils/audioUtils] is imported by the
    component and is not part of the sources at hand: its three functions are
    parameters.  [decode] may throw and the promise of [decodeAudioData] may
    reject. *)
Variable lesson : Lesson.
Variable createPcmBlob : list num -> Blob.
Variable decode : string -> Completion (list nat).
Variable decodeAudioData :
  list nat -> AudioContext -> N -> N -> Completion (AudioBuffer num).

(** ** Calls made to the browser and the SDK *)

Inductive AudioNode :=
| node (id : nat)
| destination (ctx : nat).

(** What a [.then] callback on the session promise does with the session. *)
Inductive Reaction :=
| session_close
| session_sendRealtimeInput (media : Blob).

(** [caught] records whether the returned promise got a
    [.catch(console.error)]. *)
Inductive Call :=
| track_stop (t : MediaStreamTrack)
| node_disconnect (n : nat)
| context_close (ctx : nat) (caught : bool)
| context_resume (ctx : nat)
| promise_then (p : SessionPromise) (r : Reaction) (caught : bool)
| source_start (s : AudioBufferSourceNode) (when : num)
| source_stop (s : AudioBufferSourceNode)
| node_connect (from : nat) (to : AudioNode)
| gain_setValueAtTime (g : nat) (value when : num)
| getUserMedia
| new_AudioContext (rate : N)
| live_connect (systemInstruction : string)
| console_error (what : string).

(** ** The component's state *)

Record ReactState := {
  status : ChatStatus;
  transcript : list TranscriptEntry;
  error : option string
}.

Record Refs := {
  sessionPromiseRef : option SessionPromise;
  inputAudioContextRef : option AudioContext;
  outputAudioContextRef : option AudioContext;
  scriptProcessorRef : option ScriptProcessorNode;
  mediaStreamRef : option MediaStream;
  sourcesRef : list AudioBufferSourceNode;
  nextStartTimeRef : num;
  currentInputTranscriptionRef : string;
  currentOutputTranscriptionRef : string
}.

(** [calls] is the log of calls, oldest first; [fresh] names the next node
    the browser creates. *)
Record World := {
  react : ReactState;
  refs : Refs;
  calls : list Call;
  fresh : nat
}.

(** The state of a freshly mounted component. *)
Definition mounted : World :=
  {| react := {| status := Idle; transcript := []; error := None |};
     refs := {| sessionPromiseRef := None;
                inputAudioContextRef := None;
                outputAudioContextRef := None;
                scriptProcessorRef := None;
                mediaStreamRef := None;
                sourcesRef := [];
                nextStartTimeRef := num_zero;
                currentInputTranscriptionRef := "";
                currentOutputTranscriptionRef := "" |};
     calls := [];
     fresh := 0 |}.

(** ** The monad of handlers *)

Definition M (A : Type) : Type := World -> Completion A * World.

Definition ret {A} (a : A) : M A := fun w => (Normal a, w).

Definition bind {A B} (m : M A) (k : A -> M B) : M B :=
  fun w =>
    match m w with
    | (Normal a, w') => k a w'
    | (Throw e, w') => (Throw e, w')
    end.

Definition throw {A} (e : JsError) : M A := fun w => (Throw e, w).

(** [try { m } catch (err) { h err }] *)
Definition try_catch {A} (m : M A) (h : JsError -> M A) : M A :=
  fun w =>
    match m w with
    | (Throw e, w') => h e w'
    | r => r
    end.

(** Lifting of a completed external computation. *)
Definition complete {A} (c : Completion A) : M A := fun w => (c, w).

Notation "x <- m ;; k" := (bind m (fun x => k))
  (at level 61, m at next level, right associativity).
Notation "m ;; k" := (bind m (fun _ => k))
  (at level 61, right associativity).

Definition read {A} (f : Refs -> A) : M A := fun w => (Normal (f (refs w)), w).

Definition write (f : Refs -> Refs) : M unit :=
  fun w => (Normal tt,
            {| react := react w; refs := f (refs w);
               calls := calls w; fresh := fresh w |}).

Definition setState (f : ReactState -> ReactState) : M unit :=
  fun w => (Normal tt,
            {| react := f (react w); refs := refs w;
               calls := calls w; fresh := fresh w |}).

Definition call (c : Call) : M unit :=
  fun w => (Normal tt,
            {| react := react w; refs := refs w;
               calls := calls w ++ [c]; fresh := fresh w |}).

(** The browser creates a node. *)
Definition create : M nat :=
  fun w => (Normal (fresh w),
            {| react := react w; refs := refs w;
               calls := calls w; fresh := S (fresh w) |}).

(** [xs.forEach(f)] *)
Fixpoint forEach {A} (xs : list A) (f : A -> M unit) : M unit :=
  match xs with
  | [] => ret tt
  | x :: rest => f x ;; forEach rest f
  end.

(** [if (c) { m }] *)
Definition when (c : bool) (m : M unit) : M unit := if c then m else ret tt.

(** *** Assignments to the state *)

Definition setStatus (f : ChatStatus -> ChatStatus) : M unit :=
  setState (fun r => {| status := f (status r);
                        transcript := transcript r; error := error r |}).

Definition setTranscript
  (f : list TranscriptEntry -> list TranscriptEntry) : M unit :=
  setState (fun r => {| status := status r;
                        transcript := f (transcript r); error := error r |}).

Definition setError (e : option string) : M unit :=
  setState (fun r => {| status := status r;
                        transcript := transcript r; error := e |}).

Definition set_sessionPromiseRef (v : option SessionPromise) (r : Refs) :=
  {| sessionPromiseRef := v;
     inputAudioContextRef := inputAudioContextRef r;
     outputAudioContextRef := outputAudioContextRef r;
     scriptProcessorRef := scriptProcessorRef r;
     mediaStreamRef := mediaStreamRef r;
     sourcesRef := sourcesRef r;
     nextStartTimeRef := nextStartTimeRef r;
     currentInputTranscriptionRef := currentInputTranscriptionRef r;
     currentOutputTranscriptionRef := currentOutputTranscriptionRef r |}.

Definition set_inputAudioContextRef (v : option AudioContext) (r : Refs) :=
  {| sessionPromiseRef := sessionPromiseRef r;
     inputAudioContextRef := v;
     outputAudioContextRef := outputAudioContextRef r;
     scriptProcessorRef := scriptProcessorRef r;
     mediaStreamRef := mediaStreamRef r;
     sourcesRef := sourcesRef r;
     nextStartTimeRef := nextStartTimeRef r;
     currentInputTranscriptionRef := currentInputTranscriptionRef r;
     currentOutputTranscriptionRef := currentOutputTranscriptionRef r |}.

Definition set_outputAudioContextRef (v : option AudioContext) (r : Refs) :=
  {| sessionPromiseRef := sessionPromiseRef r;
     inputAudioContextRef := inputAudioContextRef r;
     outputAudioContextRef := v;
     scriptProcessorRef := scriptProcessorRef r;
     mediaStreamRef := mediaStreamRef r;
     sourcesRef := sourcesRef r;
     nextStartTimeRef := nextStartTimeRef r;
     currentInputTranscriptionRef := currentInputTranscriptionRef r;
     currentOutputTranscriptionRef := currentOutputTranscriptionRef r |}.

Definition set_scriptProcessorRef (v : option ScriptProcessorNode) (r : Refs) :=
  {| sessionPromiseRef := sessionPromiseRef r;
     inputAudioContextRef := inputAudioContextRef r;
     outputAudioContextRef := outputAudioContextRef r;
     scriptProcessorRef := v;
     mediaStreamRef := mediaStreamRef r;
     sourcesRef := sourcesRef r;
     nextStartTimeRef := nextStartTimeRef r;
     currentInputTranscriptionRef := currentInputTranscriptionRef r;
     currentOutputTranscriptionRef := currentOutputTranscriptionRef r |}.

Definition set_mediaStreamRef (v : option MediaStream) (r : Refs) :=
  {| sessionPromiseRef := sessionPromiseRef r;
     inputAudioContextRef := inputAudioContextRef r;
     outputAudioContextRef := outputAudioContextRef r;
     scriptProcessorRef := scriptProcessorRef r;
     mediaStreamRef := v;
     sourcesRef := sourcesRef r;
     nextStartTimeRef := nextStartTimeRef r;
     currentInputTranscriptionRef := currentInputTranscriptionRef r;
     currentOutputTranscriptionRef := currentOutputTranscriptionRef r |}.

Definition set_sourcesRef (v : list AudioBufferSourceNode) (r : Refs) :=
  {| sessionPromiseRef := sessionPromiseRef r;
     inputAudioContextRef := inputAudioContextRef r;
     outputAudioContextRef := outputAudioContextRef r;
     scriptProcessorRef := scriptProcessorRef r;
     mediaStreamRef := mediaStreamRef r;
     sourcesRef := v;
     nextStartTimeRef := nextStartTimeRef r;
     currentInputTranscriptionRef := currentInputTranscriptionRef r;
     currentOutputTranscriptionRef := currentOutputTranscriptionRef r |}.

Definition set_nextStartTimeRef (v : num) (r : Refs) :=
  {| sessionPromiseRef := sessionPromiseRef r;
     inputAudioContextRef := inputAudioContextRef r;
     outputAudioContextRef := outputAudioContextRef r;
     scriptProcessorRef := scriptProcessorRef r;
     mediaStreamRef := mediaStreamRef r;
     sourcesRef := sourcesRef r;
     nextStartTimeRef := v;
     currentInputTranscriptionRef := currentInputTranscriptionRef r;
     currentOutputTranscriptionRef := currentOutputTranscriptionRef r |}.

Definition set_currentInputTranscriptionRef (v : string) (r : Refs) :=
  {| sessionPromiseRef := sessionPromiseRef r;
     inputAudioContextRef := inputAudioContextRef r;
     outputAudioContextRef := outputAudioContextRef r;
     scriptProcessorRef := scriptProcessorRef r;
     mediaStreamRef := mediaStreamRef r;
     sourcesRef := sourcesRef r;
     nextStartTimeRef := nextStartTimeRef r;
     currentInputTranscriptionRef := v;
     currentOutputTranscriptionRef := currentOutputTranscriptionRef r |}.

Definition set_currentOutputTranscriptionRef (v : string) (r : Refs) :=
  {| sessionPromiseRef := sessionPromiseRef r;
     inputAudioContextRef := inputAudioContextRef r;
     outputAudioContextRef := outputAudioContextRef r;
     scriptProcessorRef := scriptProcessorRef r;
     mediaStreamRef := mediaStreamRef r;
     sourcesRef := sourcesRef r;
     nextStartTimeRef := nextStartTimeRef r;
     currentInputTranscriptionRef := currentInputTranscriptionRef r;
     currentOutputTranscriptionRef := v |}.

(** ** [cleanup] (lines 34-56) *)

(** [ref.current && ref.current.state !== 'closed'] *)
Definition open_context (c : option AudioContext) : option AudioContext :=
  match c with
  | Some ctx =>
      match state ctx with
      | closed => None
      | _ => Some ctx
      end
  | None => None
  end.

Definition cleanup : M unit :=
  stream <- read mediaStreamRef ;;
  match stream with
  | Some ms => forEach (getTracks ms) (fun track => call (track_stop track))
  | None => ret tt
  end ;;
  processor <- read scriptProcessorRef ;;
  match processor with
  | Some n => call (node_disconnect n)
  | None => ret tt
  end ;;
  input <- read inputAudioContextRef ;;
  match open_context input with
  | Some ctx => call (context_close (context_id ctx) true)
  | None => ret tt
  end ;;
  output <- read outputAudioContextRef ;;
  match open_context output with
  | Some ctx => call (context_close (context_id ctx) true)
  | None => ret tt
  end ;;
  session <- read sessionPromiseRef ;;
  match session with
  | Some p => call (promise_then p session_close true)
  | None => ret tt
  end ;;
  sources <- read sourcesRef ;;
  forEach sources (fun source => call (source_stop source)) ;;
  write (set_sourcesRef []) ;;
  write (set_mediaStreamRef None) ;;
  write (set_scriptProcessorRef None) ;;
  write (set_inputAudioContextRef None) ;;
  write (set_outputAudioContextRef None) ;;
  write (set_sessionPromiseRef None) ;;
  write (set_nextStartTimeRef num_zero).

(** ** [handleStartChat] (lines 62-181) *)

(** [Array.prototype.join] *)
Fixpoint join (sep : string) (xs : list string) : string :=
  match xs with
  | [] => ""
  | [x] => x
  | x :: rest => String.append x (String.append sep (join sep rest))
  end.

Definition allVocabulary : string :=
  join ", "
    (map word (general (vocabulary lesson) ++ specialized (vocabulary lesson))).

Definition double_quote : string := String (ascii_of_nat 34) EmptyString.

Definition systemInstruction : string :=
  String.concat ""
    [ "You are a friendly language tutor. Your goal is to have a conversation with the user to help them practice the language. The topic of conversation is ";
      double_quote; title lesson; double_quote;
      ". Encourage the user to use the following vocabulary: ";
      allVocabulary;
      ". Start the conversation by asking a simple question related to the topic. Keep your responses concise and ask questions to keep the conversation going." ].

Definition start_failure_message : string :=
  "Could not access microphone. Please check permissions and try again.".

(** The body of the [try] (lines 71-174). *)
Definition acquire (env : StartEnv) : M unit :=
  call getUserMedia ;;
  stream <- complete (answer_getUserMedia env) ;;
  write (set_mediaStreamRef (Some stream)) ;;
  call (new_AudioContext 16000%N) ;;
  input <- complete (answer_inputAudioContext env) ;;
  write (set_inputAudioContextRef (Some input)) ;;
  call (new_AudioContext 24000%N) ;;
  output <- complete (answer_outputAudioContext env) ;;
  write (set_outputAudioContextRef (Some output)) ;;
  match state output with
  | suspended =>
      source <- create ;;
      call (node_connect source (destination (context_id output))) ;;
      call (source_start source num_zero) ;;
      call (context_resume (context_id output)) ;;
      complete (answer_resume env) ;;
      write (set_outputAudioContextRef
               (Some {| context_id := context_id output;
                        sampleRate := sampleRate output;
                        state := running |}))
  | _ => ret tt
  end ;;
  call (live_connect systemInstruction) ;;
  promise <- complete (answer_connect env) ;;
  write (set_sessionPromiseRef (Some promise)).

(** The body of the [catch] (lines 177-179). *)
Definition start_failed (err : JsError) : M unit :=
  call (console_error "Failed to start chat:") ;;
  setError (Some start_failure_message) ;;
  setStatus (fun _ => Error).

Definition handleStartChat (env : StartEnv) : M unit :=
  setStatus (fun _ => Connecting) ;;
  setError None ;;
  setTranscript (fun _ => []) ;;
  cleanup ;;
  try_catch (acquire env) start_failed.

(** Whether some answer the [try] block waits for is an exception. *)
Definition start_fails (env : StartEnv) : bool :=
  match answer_getUserMedia env, answer_inputAudioContext env,
        answer_outputAudioContext env, answer_connect env with
  | Normal _, Normal _, Normal output, Normal _ =>
      match state output, answer_resume env with
      | suspended, Throw _ => true
      | _, _ => false
      end
  | _, _, _, _ => true
  end.

(** ** [handleStopChat] (lines 183-186) *)

Definition handleStopChat : M unit :=
  setStatus (fun _ => Stopped) ;;
  cleanup.

(** ** The transport callbacks (lines 97-166) *)

(** [now] is [inputCtx.currentTime]. *)
Definition onopen (now : num) : M unit :=
  setStatus (fun _ => Active) ;;
  input <- read inputAudioContextRef ;;
  match input with
  | None => throw TypeError
  | Some inputCtx =>
      source <- create ;;
      scriptProcessor <- create ;;
      write (set_scriptProcessorRef (Some scriptProcessor)) ;;
      call (node_connect source (node scriptProcessor)) ;;
      gainNode <- create ;;
      call (gain_setValueAtTime gainNode num_zero now) ;;
      call (node_connect scriptProcessor (node gainNode)) ;;
      call (node_connect gainNode (destination (context_id inputCtx)))
  end.

(** The capture callback installed by [onopen] (lines 104-110).  The [.then]
    on the session promise carries no [.catch]. *)
Definition onaudioprocess (inputData : list num) : M unit :=
  let pcmBlob := createPcmBlob inputData in
  session <- read sessionPromiseRef ;;
  match session with
  | Some p => call (promise_then p (session_sendRealtimeInput pcmBlob) false)
  | None => ret tt
  end.

(** [a?.b] *)
Definition chain {A B} (a : option A) (b : A -> option B) : option B :=
  match a with
  | Some x => b x
  | None => None
  end.

(** Truthiness of an optional boolean field. *)
Definition is_true (b : option bool) : bool :=
  match b with
  | Some true => true
  | _ => false
  end.

(** Lines 123-137: the transcript fragments and the end of a turn. *)
Definition onmessage_transcription (message : LiveServerMessage) : M unit :=
  match chain (serverContent message) outputTranscription with
  | Some t =>
      current <- read currentOutputTranscriptionRef ;;
      write (set_currentOutputTranscriptionRef
               (String.append current (fragment t)))
  | None => ret tt
  end ;;
  match chain (serverContent message) inputTranscription with
  | Some t =>
      current <- read currentInputTranscriptionRef ;;
      write (set_currentInputTranscriptionRef
               (String.append current (fragment t)))
  | None => ret tt
  end ;;
  when (is_true (chain (serverContent message) turnComplete))
    (fullInput <- read currentInputTranscriptionRef ;;
     fullOutput <- read currentOutputTranscriptionRef ;;
     when (truthy (trim fullInput) || truthy (trim fullOutput))
       (setTranscript (fun prev =>
          prev ++ [ {| speaker := user; text := fullInput |};
                    {| speaker := model; text := fullOutput |} ])) ;;
     write (set_currentInputTranscriptionRef "") ;;
     write (set_currentOutputTranscriptionRef "")).

(** Line 140: [message.serverContent?.modelTurn?.parts[0]?.inlineData.data].
    The chain is optional at [serverContent], [modelTurn] and [parts[0]]; the
    accesses [.parts[0]] and [.inlineData.data] are plain. *)
Definition base64Audio (message : LiveServerMessage)
  : Completion (option string) :=
  match chain (serverContent message) modelTurn with
  | None => Normal None
  | Some turn =>
      match parts turn with
      | None => Throw TypeError
      | Some ps =>
          match nth_error ps 0 with
          | None => Normal None
          | Some part =>
              match inlineData part with
              | None => Throw TypeError
              | Some blob => Normal (Some (data blob))
              end
          end
      end
  end.

(** Lines 140-144, up to the [await]: the result is the context and the bytes
    handed to [decodeAudioData], if the branch is taken.  [now] is
    [outputAudioContext.currentTime]. *)
Definition onmessage_audio (now : num) (message : LiveServerMessage)
  : M (option (AudioContext * list nat)) :=
  audio <- complete (base64Audio message) ;;
  output <- read outputAudioContextRef ;;
  match audio, output with
  | Some base64, Some outputAudioContext =>
      if truthy base64 then
        next <- read nextStartTimeRef ;;
        write (set_nextStartTimeRef (num_max next now)) ;;
        bytes <- complete (decode base64) ;;
        ret (Some (outputAudioContext, bytes))
      else ret None
  | _, _ => ret None
  end.

(** Lines 144-154, from the [await] on: [decoded] is what the promise of
    [decodeAudioData] settled to. *)
Definition onmessage_resume
  (outputAudioContext : AudioContext) (decoded : Completion (AudioBuffer num))
  : M unit :=
  audioBuffer <- complete decoded ;;
  source <- create ;;
  call (node_connect source (destination (context_id outputAudioContext))) ;;
  next <- read nextStartTimeRef ;;
  call (source_start source next) ;;
  next' <- read nextStartTimeRef ;;
  write (set_nextStartTimeRef (num_add next' (duration audioBuffer))) ;;
  sources <- read sourcesRef ;;
  write (set_sourcesRef (set_add source sources)).

(** Lines 139-155, run without another event between the two halves. *)
Definition onmessage_playback (now : num) (message : LiveServerMessage)
  : M unit :=
  pending <- onmessage_audio now message ;;
  match pending with
  | Some (outputAudioContext, bytes) =>
      onmessage_resume outputAudioContext
        (decodeAudioData bytes outputAudioContext 24000%N 1%N)
  | None => ret tt
  end.

Definition onmessage (now : num) (message : LiveServerMessage) : M unit :=
  onmessage_transcription message ;;
  onmessage_playback now message.

(** The ['ended'] listener of a playback source (lines 149-151). *)
Definition onended (source : AudioBufferSourceNode) : M unit :=
  sources <- read sourcesRef ;;
  write (set_sourcesRef (set_delete source sources)).

Definition session_error_message : string :=
  "An error occurred during the chat session.".

Definition onerror : M unit :=
  call (console_error "Session error:") ;;
  setError (Some session_error_message) ;;
  setStatus (fun _ => Error) ;;
  cleanup.

Definition onclose : M unit :=
  setStatus (fun prev => match prev with Error => Error | _ => Stopped end) ;;
  cleanup.

(** ** The event loop

    An event stands for a handler that runs to its end before the next event
    is handled.  For [handleStartChat] and [onmessage], which wait at an
    [await], that is the case in which nothing else happens while they wait;
    the other cases are the subject of the next section. *)

Inductive Event :=
| click_start (env : StartEnv)
| click_stop
| transport_open (now : num)
| transport_message (now : num) (message : LiveServerMessage)
| transport_error
| transport_close
| audioprocess (inputData : list num)
| ended (source : AudioBufferSourceNode)
| unmount.

Definition handler (e : Event) : M unit :=
  match e with
  | click_start env => handleStartChat env
  | click_stop => handleStopChat
  | transport_open now => onopen now
  | transport_message now message => onmessage now message
  | transport_error => onerror
  | transport_close => onclose
  | audioprocess inputData => onaudioprocess inputData
  | ended source => onended source
  | unmount => cleanup
  end.

(** An exception ends the handler that threw it and nothing else. *)
Definition step (w : World) (e : Event) : World := snd (handler e w).

Definition run (events : list Event) (w : World) : World :=
  fold_left step events w.

(** The worlds after each event of [events], in order. *)
Fixpoint run_states (events : list Event) (w : World) : list World :=
  match events with
  | [] => []
  | e :: rest => step w e :: run_states rest (step w e)
  end.

(** ** The handlers cut at their awaits

    [handleStartChat] waits for [getUserMedia] (line 71) and, when the output
    context is suspended, for [context.resume()] (line 85); [onmessage] waits
    for [decodeAudioData] (line 144).  While a handler waits, other handlers
    run: the close of the previous session, an unmount, a click, another
    message.  The parts below are the stretches of code between the awaits,
    each run in one go. *)

(** Lines 63-71, up to the [await] of [getUserMedia]. *)
Definition start_requested : M unit :=
  setStatus (fun _ => Connecting) ;;
  setError None ;;
  setTranscript (fun _ => []) ;;
  cleanup ;;
  call getUserMedia.

(** Lines 88-174. *)
Definition start_connect (env : StartEnv) : M unit :=
  call (live_connect systemInstruction) ;;
  promise <- complete (answer_connect env) ;;
  write (set_sessionPromiseRef (Some promise)).

(** Lines 72-85, from the answer of [getUserMedia] on.  The result is the
    context whose [resume] is awaited; when the output context is not
    suspended there is no such wait and the code goes on to line 88. *)
Definition start_granted (env : StartEnv) : M (option AudioContext) :=
  stream <- complete (answer_getUserMedia env) ;;
  write (set_mediaStreamRef (Some stream)) ;;
  call (new_AudioContext 16000%N) ;;
  input <- complete (answer_inputAudioContext env) ;;
  write (set_inputAudioContextRef (Some input)) ;;
  call (new_AudioContext 24000%N) ;;
  output <- complete (answer_outputAudioContext env) ;;
  write (set_outputAudioContextRef (Some output)) ;;
  match state output with
  | suspended =>
      source <- create ;;
      call (node_connect source (destination (context_id output))) ;;
      call (source_start source num_zero) ;;
      call (context_resume (context_id output)) ;;
      ret (Some output)
  | _ => start_connect env ;; ret None
  end.

(** Lines 85-174, from the answer of [resume] on.  No ref is read or written
    before line 94; that the resumed context is now running is recorded in
    [outputAudioContextRef] if the ref still holds that context. *)
Definition start_resumed (env : StartEnv) (output : AudioContext) : M unit :=
  complete (answer_resume env) ;;
  held <- read outputAudioContextRef ;;
  match held with
  | Some ctx =>
      when (Nat.eqb (context_id ctx) (context_id output))
        (write (set_outputAudioContextRef
                  (Some {| context_id := context_id output;
                           sampleRate := sampleRate output;
                           state := running |})))
  | None => ret tt
  end ;;
  start_connect env.

(** A handler as a whole, or one of the parts of [handleStartChat] and
    [onmessage].  A part that comes after an [await] carries what the
    handler had in its local variables: the answers it waits for, the
    context it captured. *)
Inductive Segment :=
| whole (e : Event)
| start_clicked
| microphone_settled (env : StartEnv)
| resume_settled (env : StartEnv) (output : AudioContext)
| decode_begun (now : num) (message : LiveServerMessage)
| decode_settled (outputAudioContext : AudioContext)
    (decoded : Completion (AudioBuffer num)).

(** The [try] of [handleStartChat] spans its awaits: whatever a part of it
    throws is caught by the one [catch]. *)
Definition segment (s : Segment) : M unit :=
  match s with
  | whole e => handler e
  | start_clicked => start_requested
  | microphone_settled env =>
      try_catch (start_granted env ;; ret tt) start_failed
  | resume_settled env output =>
      try_catch (start_resumed env output) start_failed
  | decode_begun now message =>
      onmessage_transcription message ;;
      onmessage_audio now message ;;
      ret tt
  | decode_settled outputAudioContext decoded =>
      onmessage_resume outputAudioContext decoded
  end.

Definition advance (w : World) (s : Segment) : World := snd (segment s w).

Definition interleaved (segments : list Segment) (w : World) : World :=
  fold_left advance segments w.

(** The parts of one start, in order. *)
Definition start_segments (env : StartEnv) : list Segment :=
  start_clicked
  :: microphone_settled env
  :: match answer_getUserMedia env, answer_inputAudioContext env,
           answer_outputAudioContext env with
     | Normal _, Normal _, Normal output =>
         match state output with
         | suspended => [resume_settled env output]
         | _ => []
         end
     | _, _, _ => []
     end.

(** The parts of one inbound message, in order: the second part exists when
    the first reached the [await]. *)
Definition message_segments (now : num) (message : LiveServerMessage)
  (w : World) : list Segment :=
  decode_begun now message
  :: match (onmessage_transcription message ;; onmessage_audio now message) w
     with
     | (Normal (Some (outputAudioContext, bytes)), _) =>
         [decode_settled outputAudioContext
            (decodeAudioData bytes outputAudioContext 24000%N 1%N)]
     | _ => []
     end.

(** ** Reading the log *)

(** The calls a session receives once its promise [p] is fulfilled: the
    [.then] callbacks run in the order they were attached. *)
Definition delivered (p : SessionPromise) (log : list Call) : list Reaction :=
  flat_map (fun c =>
              match c with
              | promise_then q r _ => if Nat.eqb p q then [r] else []
              | _ => []
              end) log.

(** The frames [sendRealtimeInput] is called with, in order. *)
Definition sent (p : SessionPromise) (log : list Call) : list Blob :=
  flat_map (fun r =>
              match r with
              | session_sendRealtimeInput media => [media]
              | session_close => []
              end) (delivered p log).

(** The start times handed to [source.start], in order. *)
Definition started (log : list Call) : list num :=
  flat_map (fun c =>
              match c with
              | source_start _ t => [t]
              | _ => []
              end) log.

(** Whether a call returns a promise whose rejection nothing handles. *)
Definition unhandled (c : Call) : bool :=
  match c with
  | context_close _ caught => negb caught
  | promise_then _ _ caught => negb caught
  | _ => false
  end.

(** The calls of [cleanup] on the handles [r], in order. *)
Definition teardown (r : Refs) : list Call :=
  match mediaStreamRef r with
  | Some ms => map track_stop (getTracks ms)
  | None => []
  end
  ++ match scriptProcessorRef r with
     | Some n => [node_disconnect n]
     | None => []
     end
  ++ match open_context (inputAudioContextRef r) with
     | Some ctx => [context_close (context_id ctx) true]
     | None => []
     end
  ++ match open_context (outputAudioContextRef r) with
     | Some ctx => [context_close (context_id ctx) true]
     | None => []
     end
  ++ match sessionPromiseRef r with
     | Some p => [promise_then p session_close true]
     | None => []
     end
  ++ map source_stop (sourcesRef r).

(** The handles after [cleanup]: the two accumulators are kept. *)
Definition released (r : Refs) : Refs :=
  {| sessionPromiseRef := None;
     inputAudioContextRef := None;
     outputAudioContextRef := None;
     scriptProcessorRef := None;
     mediaStreamRef := None;
     sourcesRef := [];
     nextStartTimeRef := num_zero;
     currentInputTranscriptionRef := currentInputTranscriptionRef r;
     currentOutputTranscriptionRef := currentOutputTranscriptionRef r |}.

(** No handle is held and no source is playing. *)
Definition nothing_held (r : Refs) : Prop :=
  sessionPromiseRef r = None
  /\ inputAudioContextRef r = None
  /\ outputAudioContextRef r = None
  /\ scriptProcessorRef r = None
  /\ mediaStreamRef r = None
  /\ sourcesRef r = [].

(** The three callbacks that the browser and the transport may still fire
    for a session that was torn down. *)
Inductive Callback :=
| capture_frame (inputData : list num)
| inbound_message (now : num) (message : LiveServerMessage)
| playback_ended (source : AudioBufferSourceNode).

Definition callback_event (c : Callback) : Event :=
  match c with
  | capture_frame inputData => audioprocess inputData
  | inbound_message now message => transport_message now message
  | playback_ended source => ended source
  end.

(** ** The scheduling law, as the specification words it *)

(** From the previous [nextPlaybackTime] and the pairs (clock reading,
    duration): each chunk's start time and the [nextPlaybackTime] after it. *)
Fixpoint gapless (previous : num) (chunks : list (num * num))
  : list (num * num) :=
  match chunks with
  | [] => []
  | (t, d) :: rest =>
      let start := num_max previous t in
      (start, num_add start d) :: gapless (num_add start d) rest
  end.

(** The duration of the chunk a message carries, if it carries one that
    decodes. *)
Definition chunk_duration (ctx : AudioContext) (message : LiveServerMessage)
  : option num :=
  match base64Audio message with
  | Normal (Some base64) =>
      if truthy base64 then
        match decode base64 with
        | Normal bytes =>
            match decodeAudioData bytes ctx 24000%N 1%N with
            | Normal audioBuffer => Some (duration audioBuffer)
            | Throw _ => None
            end
        | Throw _ => None
        end
      else None
  | _ => None
  end.

(** An inbound chunk: the clock reading at its arrival, the message that
    carries it, and its duration. *)
Definition Chunk : Type := num * LiveServerMessage * num.

Definition chunk_event (c : Chunk) : Event :=
  transport_message (fst (fst c)) (snd (fst c)).

Definition chunk_timing (c : Chunk) : num * num := (fst (fst c), snd c).

Definition chunk_decodes (ctx : AudioContext) (c : Chunk) : Prop :=
  chunk_duration ctx (snd (fst c)) = Some (snd c).

(** ** The rendered view (lines 188-255) *)

(** The two [onClick] handlers of the view. *)
Inductive Action := start_chat | stop_chat.

(** What the component returns below its introductory paragraph.  The
    transcript panel holds the bubbles actually produced: an entry whose text
    trims to the empty string renders to nothing. *)
Inductive Element :=
| button (label : string) (onClick : Action)
| connecting_panel
| error_paragraph (message : string)
| transcript_panel (bubbles : list TranscriptEntry)
| listening_panel.

Definition render (r : ReactState) : list Element :=
  match status r with
  | Idle => [button "Start Voice Chat" start_chat]
  | _ => []
  end
  ++ match status r with
     | Connecting => [connecting_panel]
     | _ => []
     end
  ++ match status r with
     | Active => [button "Stop Chat" stop_chat]
     | _ => []
     end
  ++ match status r with
     | Stopped | Error => [button "Start a New Chat" start_chat]
     | _ => []
     end
  ++ match error r with
     | Some message => if truthy message then [error_paragraph message] else []
     | None => []
     end
  ++ match transcript r with
     | [] => []
     | entries =>
         [transcript_panel
            (filter (fun entry => truthy (trim (text entry))) entries)]
     end
  ++ match status r, transcript r with
     | Active, [] => [listening_panel]
     | _, _ => []
     end.

(** ** Reading the state *)

(** The entries of finished turns, each turn a user text and a model text. *)
Definition turn_entries (turns : list (string * string))
  : list TranscriptEntry :=
  flat_map (fun turn => [ {| speaker := user; text := fst turn |};
                          {| speaker := model; text := snd turn |} ]) turns.

(** A turn in which somebody said something. *)
Definition spoken (turn : string * string) : bool :=
  truthy (trim (fst turn)) || truthy (trim (snd turn)).

(** The output context is held only together with the input context, the
    input context only together with the stream, and the capture node only
    together with the input context. *)
Definition handles_nested (r : Refs) : Prop :=
  (outputAudioContextRef r <> None -> inputAudioContextRef r <> None)
  /\ (inputAudioContextRef r <> None -> mediaStreamRef r <> None)
  /\ (scriptProcessorRef r <> None -> inputAudioContextRef r <> None).

(** Whether [source.start] was called on [s]. *)
Definition was_started (s : AudioBufferSourceNode) (log : list Call) : bool :=
  existsb (fun c => match c with
                    | source_start s' _ => Nat.eqb s s'
                    | _ => false
                    end) log.

(** The set of playback sources holds no source twice, only nodes the browser
    has created, and only sources that were started. *)
Definition sources_sound (w : World) : Prop :=
  NoDup (sourcesRef (refs w))
  /\ Forall (fun s => s < fresh w) (sourcesRef (refs w))
  /\ Forall (fun s => was_started s (calls w) = true) (sourcesRef (refs w)).

Definition is_track_stop (c : Call) : bool :=
  match c with
  | track_stop _ => true
  | _ => false
  end.

(** * Properties *)

Ltac break_match :=
  match goal with
  | |- context [match ?x with _ => _ end] =>
      lazymatch x with
      | context [match _ with _ => _ end] => fail
      | _ => destruct x eqn:?
      end
  end.

Ltac run_handler :=
  unfold bind, complete, read, write, call, create, ret, when, throw,
         setTranscript, setStatus, setError, setState;
  repeat (cbn; try break_match).

(** ** The event loop *)

Lemma run_cons (e : Event) (events : list Event) (w : World) :
  run (e :: events) w = run events (step w e).
Proof. reflexivity. Qed.

(** ** What [cleanup] does *)

Lemma forEach_call {A} (f : A -> Call) (xs : list A) (w : World) :
  forEach xs (fun x => call (f x)) w
  = (Normal tt, {| react := react w; refs := refs w;
                   calls := calls w ++ map f xs; fresh := fresh w |}).
Proof.
  revert w. induction xs as [|x xs IH]; intros w; cbn.
  - rewrite app_nil_r. destruct w; reflexivity.
  - unfold bind, call at 1. rewrite IH. cbn. rewrite <- app_assoc. reflexivity.
Qed.

Lemma cleanup_run (w : World) :
  cleanup w
  = (Normal tt, {| react := react w; refs := released (refs w);
                   calls := calls w ++ teardown (refs w); fresh := fresh w |}).
Proof.
  destruct w as [r [sp ic oc pr ms srcs nx ci co] log fr].
  unfold cleanup, teardown, released, bind, read, write, ret; cbn.
  destruct ms as [[tracks]|], pr, sp;
    cbn; repeat (rewrite forEach_call; cbn);
    destruct (open_context ic); cbn;
    destruct (open_context oc); cbn;
    repeat (rewrite forEach_call; cbn);
    rewrite <- ?app_assoc; cbn; rewrite ?app_nil_r; reflexivity.
Qed.

Lemma released_released (r : Refs) : released (released r) = released r.
Proof. reflexivity. Qed.

Lemma teardown_released (r : Refs) : teardown (released r) = [].
Proof. reflexivity. Qed.

Lemma handled_map {A} (f : A -> Call) (xs : list A) :
  (forall x, unhandled (f x) = false) ->
  forallb (fun c => negb (unhandled c)) (map f xs) = true.
Proof.
  intros Hf. induction xs as [|x xs IH]; cbn; [reflexivity|].
  now rewrite Hf, IH.
Qed.

Lemma teardown_handled (r : Refs) :
  forallb (fun c => negb (unhandled c)) (teardown r) = true.
Proof.
  unfold teardown.
  rewrite !forallb_app, (handled_map source_stop) by reflexivity.
  destruct (mediaStreamRef r) as [ms|], (scriptProcessorRef r),
    (open_context (inputAudioContextRef r)),
    (open_context (outputAudioContextRef r)), (sessionPromiseRef r); cbn;
    rewrite ?(handled_map track_stop) by reflexivity; reflexivity.
Qed.

Lemma open_context_not_closed (c : option AudioContext) (ctx : AudioContext) :
  c = Some ctx -> state ctx <> closed -> open_context c = Some ctx.
Proof.
  intros -> H. unfold open_context. destruct (state ctx); congruence.
Qed.

(** Every track, open context and playback source held in [r] is stopped or
    closed by the calls of [teardown r]. *)
Lemma teardown_complete (r : Refs) :
  (forall ms t, mediaStreamRef r = Some ms -> In t (getTracks ms) ->
                In (track_stop t) (teardown r))
  /\ (forall n, scriptProcessorRef r = Some n ->
                In (node_disconnect n) (teardown r))
  /\ (forall ctx, inputAudioContextRef r = Some ctx
                  \/ outputAudioContextRef r = Some ctx ->
                  state ctx <> closed ->
                  In (context_close (context_id ctx) true) (teardown r))
  /\ (forall p, sessionPromiseRef r = Some p ->
                In (promise_then p session_close true) (teardown r))
  /\ (forall s, In s (sourcesRef r) -> In (source_stop s) (teardown r)).
Proof.
  unfold teardown. repeat split.
  - intros ms t -> Ht. rewrite in_app_iff. left. now apply in_map.
  - intros n ->. rewrite !in_app_iff. cbn. tauto.
  - intros ctx [Hc|Hc] Hs;
      rewrite (open_context_not_closed _ ctx Hc Hs), !in_app_iff; cbn; tauto.
  - intros p ->. rewrite !in_app_iff. cbn. tauto.
  - intros s Hs. rewrite !in_app_iff. do 5 right. now apply in_map.
Qed.

(** ** C1 *)

(** C1. [cleanup] never throws, whatever the handles hold; after it the
    stream, the capture node, both audio contexts and the session promise are
    null, the set of playback sources is empty and [nextStartTimeRef] is 0.
    A second [cleanup] right after, or a [cleanup] of the freshly mounted
    component, completes as well, calls nothing and changes nothing.  No call
    of [cleanup] can abort the ones after it: each completes synchronously,
    and each promise it creates carries a rejection handler. *)
Theorem cleanup_idempotent (w : World) :
  let once := snd (cleanup w) in
  fst (cleanup w) = Normal tt
  /\ mediaStreamRef (refs once) = None
  /\ scriptProcessorRef (refs once) = None
  /\ inputAudioContextRef (refs once) = None
  /\ outputAudioContextRef (refs once) = None
  /\ sessionPromiseRef (refs once) = None
  /\ sourcesRef (refs once) = []
  /\ nextStartTimeRef (refs once) = num_zero
  /\ cleanup once = (Normal tt, once)
  /\ cleanup mounted = (Normal tt, mounted)
  /\ exists made,
       calls once = calls w ++ made
       /\ forallb (fun c => negb (unhandled c)) made = true.
Proof.
  cbv zeta. rewrite !cleanup_run. cbn [fst snd refs react calls fresh].
  repeat split.
  - rewrite teardown_released, app_nil_r. reflexivity.
  - exists (teardown (refs w)). split; [reflexivity | apply teardown_handled].
Qed.

(** ** C4 *)

(** C4. A transport error leaves the status at [Error] and a non-empty
    message in [error]; the transcript is the one from before; every handle
    is null and the set of playback sources empty; every track of the held
    stream and every held playback source was stopped, and each held audio
    context that was not closed already was closed. *)
Theorem onerror_clears_and_keeps_transcript (w : World) :
  let w' := snd (onerror w) in
  fst (onerror w) = Normal tt
  /\ status (react w') = Error
  /\ (exists m, error (react w') = Some m /\ truthy m = true)
  /\ transcript (react w') = transcript (react w)
  /\ mediaStreamRef (refs w') = None
  /\ scriptProcessorRef (refs w') = None
  /\ inputAudioContextRef (refs w') = None
  /\ outputAudioContextRef (refs w') = None
  /\ sessionPromiseRef (refs w') = None
  /\ sourcesRef (refs w') = []
  /\ (forall ms t, mediaStreamRef (refs w) = Some ms -> In t (getTracks ms) ->
                   In (track_stop t) (calls w'))
  /\ (forall ctx, inputAudioContextRef (refs w) = Some ctx
                  \/ outputAudioContextRef (refs w) = Some ctx ->
                  state ctx <> closed ->
                  In (context_close (context_id ctx) true) (calls w'))
  /\ (forall s, In s (sourcesRef (refs w)) -> In (source_stop s) (calls w')).
Proof.
  cbv zeta. unfold onerror, bind.
  cbn [call setError setStatus setState]. rewrite cleanup_run.
  cbn [fst snd react refs calls fresh status error transcript released
       mediaStreamRef scriptProcessorRef inputAudioContextRef
       outputAudioContextRef sessionPromiseRef sourcesRef].
  destruct (teardown_complete (refs w)) as (Ht & _ & Hc & _ & Hs).
  repeat split; trivial.
  - exists session_error_message. split; reflexivity.
  - intros ms t Hm Hin. apply in_or_app. right. eauto.
  - intros ctx Hctx Hst. apply in_or_app. right. eauto.
  - intros s Hin. apply in_or_app. right. eauto.
Qed.

(** ** C5 *)

(** C5. On the transport's close the status stays [Error] if it was [Error]
    and becomes [Stopped] otherwise; [handleStopChat] sets it to [Stopped]
    from every state.  Both then run the whole of [cleanup], in every state:
    the handles and the log end as [cleanup] alone leaves them. *)
Theorem onclose_and_stop_status (w : World) :
  let closed_w := snd (onclose w) in
  let stopped_w := snd (handleStopChat w) in
  fst (onclose w) = Normal tt
  /\ status (react closed_w)
     = match status (react w) with Error => Error | _ => Stopped end
  /\ refs closed_w = refs (snd (cleanup w))
  /\ calls closed_w = calls (snd (cleanup w))
  /\ fst (handleStopChat w) = Normal tt
  /\ status (react stopped_w) = Stopped
  /\ refs stopped_w = refs (snd (cleanup w))
  /\ calls stopped_w = calls (snd (cleanup w))
  /\ handleStopChat mounted
     = (Normal tt,
        {| react := {| status := Stopped; transcript := []; error := None |};
           refs := refs mounted; calls := []; fresh := 0 |}).
Proof.
  cbv zeta. unfold onclose, handleStopChat, bind.
  cbn [setStatus setState]. rewrite !cleanup_run.
  cbn. repeat split; reflexivity.
Qed.

(** ** What [onmessage] touches *)

(** The audio half leaves the React state and the two accumulators alone. *)
Lemma onmessage_playback_frame (now : num) (message : LiveServerMessage)
  (w : World) :
  let w' := snd (onmessage_playback now message w) in
  react w' = react w
  /\ currentInputTranscriptionRef (refs w')
     = currentInputTranscriptionRef (refs w)
  /\ currentOutputTranscriptionRef (refs w')
     = currentOutputTranscriptionRef (refs w).
Proof.
  cbv zeta. unfold onmessage_playback, onmessage_audio, onmessage_resume.
  run_handler; auto.
Qed.

(** The transcription half never throws and touches neither the handles nor
    the log. *)
Lemma onmessage_transcription_frame (message : LiveServerMessage) (w : World) :
  let w' := snd (onmessage_transcription message w) in
  fst (onmessage_transcription message w) = Normal tt
  /\ calls w' = calls w /\ fresh w' = fresh w
  /\ sessionPromiseRef (refs w') = sessionPromiseRef (refs w)
  /\ inputAudioContextRef (refs w') = inputAudioContextRef (refs w)
  /\ outputAudioContextRef (refs w') = outputAudioContextRef (refs w)
  /\ scriptProcessorRef (refs w') = scriptProcessorRef (refs w)
  /\ mediaStreamRef (refs w') = mediaStreamRef (refs w)
  /\ sourcesRef (refs w') = sourcesRef (refs w)
  /\ nextStartTimeRef (refs w') = nextStartTimeRef (refs w).
Proof.
  cbv zeta. unfold onmessage_transcription.
  run_handler; repeat split; reflexivity.
Qed.

Lemma onmessage_split (now : num) (message : LiveServerMessage) (w : World) :
  onmessage now message w
  = onmessage_playback now message (snd (onmessage_transcription message w)).
Proof.
  unfold onmessage, bind.
  pose proof (onmessage_transcription_frame message w) as [H _].
  destruct (onmessage_transcription message w) as [[[]|e] w1];
    cbn in H; [reflexivity | discriminate].
Qed.

(** ** C3 *)

(** C3. When a message signals the end of a turn, with [fullInput] and
    [fullOutput] the two accumulators (the message's own fragments appended):
    if one of them is non-empty after [trim], the transcript grows by exactly
    the user entry with [fullInput] followed by the model entry with
    [fullOutput]; if both trim to the empty string the transcript is
    unchanged; in both cases the two accumulators are empty afterwards. *)
Theorem turn_complete_flushes (now : num) (message : LiveServerMessage)
  (content : LiveServerContent) (w : World) :
  serverContent message = Some content ->
  turnComplete content = Some true ->
  let w' := snd (onmessage now message w) in
  let fullInput :=
    match inputTranscription content with
    | Some t => String.append (currentInputTranscriptionRef (refs w)) (fragment t)
    | None => currentInputTranscriptionRef (refs w)
    end in
  let fullOutput :=
    match outputTranscription content with
    | Some t => String.append (currentOutputTranscriptionRef (refs w)) (fragment t)
    | None => currentOutputTranscriptionRef (refs w)
    end in
  transcript (react w')
  = (if truthy (trim fullInput) || truthy (trim fullOutput)
     then transcript (react w)
          ++ [ {| speaker := user; text := fullInput |};
               {| speaker := model; text := fullOutput |} ]
     else transcript (react w))
  /\ currentInputTranscriptionRef (refs w') = ""
  /\ currentOutputTranscriptionRef (refs w') = "".
Proof.
  intros Hc Ht. cbv zeta. rewrite onmessage_split.
  destruct (onmessage_playback_frame now message
              (snd (onmessage_transcription message w))) as (-> & -> & ->).
  unfold onmessage_transcription. rewrite Hc. cbn [chain]. rewrite Ht.
  destruct w as [r rf log fr].
  destruct (inputTranscription content) as [ti|],
           (outputTranscription content) as [to|];
    unfold bind, read, write, when, ret, setTranscript, setState;
    cbn -[trim];
    match goal with
    | |- context [if ?c then _ else _] => destruct c
    end; cbn; repeat split; reflexivity.
Qed.

(** ** C6 *)

(** A message without [serverContent], or whose content is empty, is ignored:
    no exception, no change. *)
Lemma onmessage_ignores_empty (now : num) (w : World) :
  onmessage now {| serverContent := None |} w = (Normal tt, w)
  /\ onmessage now {| serverContent := Some no_content |} w = (Normal tt, w).
Proof. destruct w as [r [] log fr]. split; reflexivity. Qed.

(** A model turn whose [parts] is empty, and an [inlineData] whose [data] is
    the empty string, are ignored as well. *)
Lemma onmessage_ignores_empty_parts (now : num) (w : World) :
  onmessage now
    {| serverContent :=
         Some {| outputTranscription := None; inputTranscription := None;
                 turnComplete := None;
                 modelTurn := Some {| parts := Some [] |} |} |} w
  = (Normal tt, w)
  /\ onmessage now (audio_message "") w = (Normal tt, w).
Proof.
  destruct w as [r [sp ic [oc|] pr ms srcs nx ci co] log fr];
    split; reflexivity.
Qed.

(** More generally, a message on which line 140 evaluates to [undefined]
    never makes the handler throw, and touches neither the handles nor the
    log. *)
Lemma onmessage_without_audio (now : num) (message : LiveServerMessage)
  (w : World) :
  base64Audio message = Normal None ->
  let w' := snd (onmessage now message w) in
  fst (onmessage now message w) = Normal tt
  /\ calls w' = calls w /\ fresh w' = fresh w
  /\ sessionPromiseRef (refs w') = sessionPromiseRef (refs w)
  /\ inputAudioContextRef (refs w') = inputAudioContextRef (refs w)
  /\ outputAudioContextRef (refs w') = outputAudioContextRef (refs w)
  /\ scriptProcessorRef (refs w') = scriptProcessorRef (refs w)
  /\ mediaStreamRef (refs w') = mediaStreamRef (refs w)
  /\ sourcesRef (refs w') = sourcesRef (refs w)
  /\ nextStartTimeRef (refs w') = nextStartTimeRef (refs w).
Proof.
  intros Hb. cbv zeta. rewrite onmessage_split.
  pose proof (onmessage_transcription_frame message w) as H. cbv zeta in H.
  destruct (onmessage_transcription message w) as [c w1].
  cbn [fst snd] in *. destruct H as (_ & H).
  unfold onmessage_playback, onmessage_audio, bind, complete, read, ret.
  rewrite Hb. cbn. exact (conj eq_refl H).
Qed.

(** C6. The handler does throw on some messages that lack expected fields: a
    model turn whose first part has no [inlineData], and a model turn that
    has no [parts], each end [onmessage] with a [TypeError], in every state
    (the state itself is left as it was). *)
Theorem onmessage_throws_on_missing_inlineData (now : num) (w : World) :
  onmessage now message_part_without_inlineData w = (Throw TypeError, w)
  /\ onmessage now message_turn_without_parts w = (Throw TypeError, w).
Proof. destruct w as [r [] log fr]. split; reflexivity. Qed.

(** ** C9 *)

(** With nothing held, a callback makes no call, creates no node, and leaves
    nothing held and [nextStartTimeRef] where it was. *)
Lemma callback_with_nothing_held (c : Callback) (w : World) :
  nothing_held (refs w) ->
  let w' := step w (callback_event c) in
  nothing_held (refs w')
  /\ calls w' = calls w
  /\ fresh w' = fresh w
  /\ nextStartTimeRef (refs w') = nextStartTimeRef (refs w).
Proof.
  intros (Hsp & Hic & Hoc & Hpr & Hms & Hsrc). cbv zeta.
  unfold step, nothing_held. destruct c as [inputData|now message|source];
    cbn [callback_event handler].
  - unfold onaudioprocess, bind, read. rewrite Hsp. cbn. auto 10.
  - rewrite onmessage_split.
    pose proof (onmessage_transcription_frame message w) as H. cbv zeta in H.
    destruct (onmessage_transcription message w) as [c w1].
    cbn [fst snd] in *.
    destruct H as (_ & Hc1 & Hf1 & Hsp1 & Hic1 & Hoc1 & Hpr1 & Hms1 & Hsrc1
                   & Hnx1).
    destruct w1 as [r1 [sp1 ic1 oc1 pr1 ms1 srcs1 nx1 ci1 co1] log1 fr1].
    cbn in Hc1, Hf1, Hsp1, Hic1, Hoc1, Hpr1, Hms1, Hsrc1, Hnx1. subst.
    unfold onmessage_playback, onmessage_audio, bind, complete, read, ret.
    cbn. rewrite Hoc.
    destruct (base64Audio message) as [[b|]|]; cbn; auto 10.
  - unfold onended, bind, read, write. rewrite Hsrc. cbn. auto 10.
Qed.

(** The part of C9 that holds, for callbacks that begin after [cleanup].  In
    the state [cleanup] leaves, whatever capture frames, inbound messages and
    playback completions fire afterwards, in whatever order:
    no call is made (no send, no playback start), no node is created, every
    handle stays null, the set of playback sources stays empty and
    [nextStartTimeRef] stays 0.  The capture callback and the ['ended']
    listener leave the whole state as it is. *)
Theorem callbacks_after_cleanup (w : World) (callbacks : list Callback) :
  let w0 := snd (cleanup w) in
  let w1 := run (map callback_event callbacks) w0 in
  calls w1 = calls w0
  /\ fresh w1 = fresh w0
  /\ mediaStreamRef (refs w1) = None
  /\ scriptProcessorRef (refs w1) = None
  /\ inputAudioContextRef (refs w1) = None
  /\ outputAudioContextRef (refs w1) = None
  /\ sessionPromiseRef (refs w1) = None
  /\ sourcesRef (refs w1) = []
  /\ nextStartTimeRef (refs w1) = num_zero
  /\ (forall inputData, onaudioprocess inputData w0 = (Normal tt, w0))
  /\ (forall source, onended source w0 = (Normal tt, w0)).
Proof.
  cbv zeta. rewrite cleanup_run. cbn [snd].
  assert (Hrun : forall cbs w0,
             nothing_held (refs w0) ->
             let w1 := run (map callback_event cbs) w0 in
             nothing_held (refs w1) /\ calls w1 = calls w0
             /\ fresh w1 = fresh w0
             /\ nextStartTimeRef (refs w1) = nextStartTimeRef (refs w0)).
  { induction cbs as [|c cbs IH]; intros w0 H0; cbv zeta.
    - cbn. auto.
    - cbn [map]. rewrite run_cons.
      destruct (callback_with_nothing_held c w0 H0) as (H1 & Hc & Hf & Hn).
      destruct (IH _ H1) as (H2 & Hc2 & Hf2 & Hn2).
      rewrite Hc2, Hf2, Hn2, Hc, Hf, Hn. auto. }
  match goal with
  | |- context [run _ ?w0] =>
      destruct (Hrun callbacks w0) as ((Hsp & Hic & Hoc & Hpr & Hms & Hsrc)
                                        & Hc & Hf & Hn)
  end.
  { cbn. unfold nothing_held. cbn. auto 10. }
  rewrite Hc, Hf, Hn, Hsp, Hic, Hoc, Hpr, Hms, Hsrc. cbn.
  repeat split; reflexivity.
Qed.

(** The part that does not hold: the second half of a message handler whose
    decode was in flight when [cleanup] ran still starts a source on the
    context it captured, advances [nextStartTimeRef] and adds the source to
    the set. *)
Remark decode_in_flight_across_cleanup
  (ctx : AudioContext) (audioBuffer : AudioBuffer num) (w : World) :
  let w1 := snd (onmessage_resume ctx (Normal audioBuffer) (snd (cleanup w))) in
  sourcesRef (refs w1) = [fresh w]
  /\ nextStartTimeRef (refs w1) = num_add num_zero (duration audioBuffer)
  /\ In (source_start (fresh w) num_zero) (calls w1).
Proof.
  cbv zeta. rewrite cleanup_run. cbn. repeat split.
  rewrite !in_app_iff. cbn. tauto.
Qed.

(** ** C8 *)

Lemma delivered_app (p : SessionPromise) (l1 l2 : list Call) :
  delivered p (l1 ++ l2) = delivered p l1 ++ delivered p l2.
Proof. apply flat_map_app. Qed.

Lemma sent_app (p : SessionPromise) (l1 l2 : list Call) :
  sent p (l1 ++ l2) = sent p l1 ++ sent p l2.
Proof. unfold sent. rewrite delivered_app. apply flat_map_app. Qed.

Lemma onaudioprocess_run (inputData : list num) (w : World)
  (p : SessionPromise) :
  sessionPromiseRef (refs w) = Some p ->
  onaudioprocess inputData w
  = (Normal tt,
     {| react := react w; refs := refs w;
        calls := calls w
                 ++ [promise_then p
                       (session_sendRealtimeInput (createPcmBlob inputData))
                       false];
        fresh := fresh w |}).
Proof.
  intros H. unfold onaudioprocess, bind, read. rewrite H. reflexivity.
Qed.

(** C8. While the session promise is held, the capture callback fired on the
    frames [frames], one after the other, attaches to the promise exactly one
    send per frame, in firing order, each with [createPcmBlob] of its own
    frame, and nothing else; so the session receives, after what it was sent
    before, exactly the encoded frames in firing order: as many sends as
    firings.  The component's state is untouched. *)
Theorem capture_frames_sent_in_order (frames : list (list num)) (w : World)
  (p : SessionPromise) :
  sessionPromiseRef (refs w) = Some p ->
  let w' := run (map audioprocess frames) w in
  calls w'
  = calls w
    ++ map (fun frame =>
              promise_then p
                (session_sendRealtimeInput (createPcmBlob frame)) false)
         frames
  /\ sent p (calls w') = sent p (calls w) ++ map createPcmBlob frames
  /\ List.length (sent p (calls w'))
     = List.length (sent p (calls w)) + List.length frames
  /\ refs w' = refs w
  /\ react w' = react w.
Proof.
  cbv zeta. revert w. induction frames as [|frame frames IH]; intros w Hp.
  - cbn. rewrite !app_nil_r, Nat.add_0_r. auto.
  - cbn [map]. rewrite run_cons. unfold step. cbn [handler].
    rewrite (onaudioprocess_run frame w p Hp). cbn [snd].
    match goal with
    | |- context [run _ ?w1] =>
        destruct (IH w1 Hp) as (Hc & Hs & Hl & Hr & Hq)
    end.
    rewrite Hl, Hs, Hc, Hr, Hq. cbn [calls refs react].
    rewrite !sent_app, !length_app, <- !app_assoc. cbn.
    rewrite Nat.eqb_refl. cbn. repeat split; try reflexivity. lia.
Qed.

(** ** C2 *)

Lemma started_app (l1 l2 : list Call) :
  started (l1 ++ l2) = started l1 ++ started l2.
Proof. apply flat_map_app. Qed.

(** One chunk: the start time is the clamped [nextStartTimeRef], which then
    advances by the chunk's duration. *)
Lemma chunk_step (w : World) (ctx : AudioContext) (c : Chunk) :
  outputAudioContextRef (refs w) = Some ctx ->
  chunk_decodes ctx c ->
  let start := num_max (nextStartTimeRef (refs w)) (fst (fst c)) in
  let w' := step w (chunk_event c) in
  outputAudioContextRef (refs w') = Some ctx
  /\ nextStartTimeRef (refs w') = num_add start (snd c)
  /\ started (calls w') = started (calls w) ++ [start].
Proof.
  destruct c as [[t message] d]. unfold chunk_decodes, chunk_duration.
  cbn [fst snd]. intros Hctx Hd. cbv zeta.
  unfold step, chunk_event. cbn [handler fst snd].
  rewrite onmessage_split.
  pose proof (onmessage_transcription_frame message w) as H. cbv zeta in H.
  destruct (onmessage_transcription message w) as [c0 w1]. cbn [fst snd] in *.
  destruct H as (_ & Hcalls & _ & _ & _ & Hoc & _ & _ & _ & Hnx).
  rewrite <- Hcalls, <- Hnx. rewrite <- Hoc in Hctx. clear Hcalls Hnx Hoc.
  unfold onmessage_playback, onmessage_audio, onmessage_resume,
         bind, complete, read, write, call, create, ret.
  destruct (base64Audio message) as [[b|]|]; try discriminate.
  cbn. rewrite Hctx.
  destruct (truthy b); try discriminate.
  cbn. destruct (decode b) as [bytes|]; try discriminate.
  cbn. destruct (decodeAudioData bytes ctx 24000%N 1%N) as [buf|];
    try discriminate.
  injection Hd as <-. cbn. rewrite Hctx.
  rewrite !started_app. cbn. rewrite app_nil_r. auto.
Qed.

Lemma gapless_from (chunks : list Chunk) (w : World) (ctx : AudioContext) :
  outputAudioContextRef (refs w) = Some ctx ->
  Forall (chunk_decodes ctx) chunks ->
  let schedule := gapless (nextStartTimeRef (refs w)) (map chunk_timing chunks) in
  started (calls (run (map chunk_event chunks) w))
  = started (calls w) ++ map fst schedule
  /\ map (fun w' => nextStartTimeRef (refs w'))
       (run_states (map chunk_event chunks) w)
     = map snd schedule.
Proof.
  cbv zeta. revert w. induction chunks as [|c chunks IH]; intros w Hctx Hall.
  - cbn. rewrite app_nil_r. auto.
  - inversion Hall as [|? ? Hc Hrest]; subst.
    destruct (chunk_step w ctx c Hctx Hc) as (Hctx' & Hnx & Hst).
    destruct (IH _ Hctx' Hrest) as (IHs & IHn).
    destruct c as [[t message] d].
    cbn [map run_states gapless chunk_timing fst snd] in *.
    rewrite run_cons, IHs, IHn, Hst, Hnx, <- app_assoc. auto.
Qed.


(** ** C7 and C10: [handleStartChat] *)

(** The [try] block throws exactly when one of the answers it waits for is an
    exception, and it never touches the React state. *)
Lemma acquire_run (env : StartEnv) (w : World) :
  is_throw (fst (acquire env w)) = start_fails env
  /\ react (snd (acquire env w)) = react w.
Proof.
  destruct env as [gum ic oc rs cn]. unfold acquire, start_fails.
  unfold bind, complete, read, write, call, create, ret. cbn.
  destruct gum; cbn; [|auto].
  destruct ic; cbn; [|auto].
  destruct oc as [[id rate st]|]; cbn; [|auto].
  destruct st, rs as [[]|], cn; cbn; auto.
Qed.

Lemma try_acquire_run (env : StartEnv) (w : World) :
  let w' := snd (try_catch (acquire env) start_failed w) in
  fst (try_catch (acquire env) start_failed w) = Normal tt
  /\ react w'
     = if start_fails env
       then {| status := Error; transcript := transcript (react w);
               error := Some start_failure_message |}
       else react w.
Proof.
  cbv zeta. unfold try_catch.
  destruct (acquire_run env w) as [Ht Hr].
  destruct (acquire env w) as [[[]|e] w1]; cbn [fst snd is_throw] in *;
    rewrite <- Ht; subst.
  - auto.
  - rewrite <- Hr. split; reflexivity.
Qed.

Lemma handleStartChat_run (env : StartEnv) (w : World) :
  handleStartChat env w
  = try_catch (acquire env) start_failed
      {| react := {| status := Connecting; transcript := []; error := None |};
         refs := released (refs w);
         calls := calls w ++ teardown (refs w);
         fresh := fresh w |}.
Proof.
  unfold handleStartChat, bind. cbn [setStatus setError setTranscript setState].
  rewrite cleanup_run. reflexivity.
Qed.

(** C7, as the code has it.  [handleStartChat] itself never throws.  Whatever fails
    inside its [try] block (the microphone request, the construction of
    either audio context, [resume], [connect]) is caught by the one [catch],
    which sets the status to [Error] and the one, non-empty, message
    [start_failure_message]; if nothing fails the status is [Connecting] and
    there is no message. *)
Theorem start_failure_is_caught (env : StartEnv) (w : World) :
  let w' := snd (handleStartChat env w) in
  fst (handleStartChat env w) = Normal tt
  /\ if start_fails env
     then status (react w') = Error
          /\ error (react w') = Some start_failure_message
          /\ truthy start_failure_message = true
     else status (react w') = Connecting /\ error (react w') = None.
Proof.
  cbv zeta. rewrite handleStartChat_run.
  match goal with
  | |- context [try_catch _ _ ?w0] =>
      destruct (try_acquire_run env w0) as [Hn Hr]
  end.
  split; [exact Hn|]. rewrite Hr.
  destruct (start_fails env); cbn; auto.
Qed.

(** The part of C10 that holds.  [handleStartChat] is [cleanup] followed by
    the [try] block, both run from the state in which the status is already
    [Connecting], the transcript already empty and the error already null.  When it returns the
    transcript is empty and the error is null, or the failure message of this
    very start.  Nothing that happens from the start on depends on the
    transcript or the error from before it: the same start and the same later
    events from two states that differ in React state only end in the same
    state. *)
Theorem start_resets_transcript_and_error
  (env : StartEnv) (r : ReactState) (rf : Refs) (log : list Call) (fr : nat) :
  let w := {| react := r; refs := rf; calls := log; fresh := fr |} in
  let cleared :=
    {| react := {| status := Connecting; transcript := []; error := None |};
       refs := rf; calls := log; fresh := fr |} in
  let w' := snd (handleStartChat env w) in
  handleStartChat env w
  = (cleanup ;; try_catch (acquire env) start_failed) cleared
  /\ transcript (react w') = []
  /\ error (react w')
     = (if start_fails env then Some start_failure_message else None)
  /\ forall (r0 : ReactState) (events : list Event),
       run (click_start env :: events)
         {| react := r0; refs := rf; calls := log; fresh := fr |}
       = run (click_start env :: events) w.
Proof.
  cbv zeta. repeat apply conj.
  - unfold bind at 1. rewrite handleStartChat_run, cleanup_run. reflexivity.
  - rewrite handleStartChat_run.
    match goal with
    | |- context [try_catch _ _ ?w0] =>
        destruct (try_acquire_run env w0) as [_ ->]
    end.
    destruct (start_fails env); reflexivity.
  - rewrite handleStartChat_run.
    match goal with
    | |- context [try_catch _ _ ?w0] =>
        destruct (try_acquire_run env w0) as [_ ->]
    end.
    destruct (start_fails env); reflexivity.
  - intros r0 events. rewrite !run_cons. apply f_equal.
    unfold step. cbn [handler]. rewrite !handleStartChat_run. reflexivity.
Qed.

(** What no start resets: the two accumulators.  Fragments of a turn the
    previous session did not complete are still there when the next session's
    first turn is flushed. *)
Remark accumulators_survive_restart (env : StartEnv) (w : World) :
  let w' := snd (handleStartChat env w) in
  currentInputTranscriptionRef (refs w')
  = currentInputTranscriptionRef (refs w)
  /\ currentOutputTranscriptionRef (refs w')
     = currentOutputTranscriptionRef (refs w).
Proof.
  cbv zeta. rewrite handleStartChat_run.
  destruct env as [gum ic oc rs cn].
  unfold try_catch, acquire, start_failed.
  unfold bind, complete, read, write, call, create, ret, setError, setStatus,
         setState.
  cbn.
  destruct gum; cbn; [|auto].
  destruct ic; cbn; [|auto].
  destruct oc as [[id rate st]|]; cbn; [|auto].
  destruct st, rs as [[]|], cn; cbn; auto.
Qed.

(** ** [trim] *)

Lemma truthy_append_r (s : string) (c : ascii) :
  truthy (String.append s (String c EmptyString)) = true.
Proof. destruct s; reflexivity. Qed.

Lemma truthy_string_rev (s : string) : truthy (string_rev s) = truthy s.
Proof. destruct s; cbn; [reflexivity | apply truthy_append_r]. Qed.

Lemma blank_append (s1 s2 : string) :
  blank (String.append s1 s2) = blank s1 && blank s2.
Proof.
  induction s1 as [|c s1 IH]; cbn; [reflexivity|].
  now rewrite IH, andb_assoc.
Qed.

Lemma blank_string_rev (s : string) : blank (string_rev s) = blank s.
Proof.
  induction s as [|c s IH]; cbn; [reflexivity|].
  rewrite blank_append, IH. cbn. rewrite andb_true_r. apply andb_comm.
Qed.

Lemma blank_trimStart (s : string) : blank (trimStart s) = blank s.
Proof.
  induction s as [|c s IH]; cbn; [reflexivity|].
  destruct (is_white_space c) eqn:E; cbn; [exact IH | now rewrite E].
Qed.

Lemma truthy_trimStart (s : string) : truthy (trimStart s) = negb (blank s).
Proof.
  induction s as [|c s IH]; cbn; [reflexivity|].
  destruct (is_white_space c); cbn; [exact IH | reflexivity].
Qed.

(** A string trims to the empty string exactly when it is all white space. *)
Lemma truthy_trim (s : string) : truthy (trim s) = negb (blank s).
Proof.
  unfold trim, trimEnd.
  now rewrite truthy_string_rev, truthy_trimStart, blank_string_rev,
              blank_trimStart.
Qed.

(** * Beyond the session claims: what every run keeps *)

Lemma run_invariant (P : World -> Prop) :
  (forall w e, P w -> P (step w e)) ->
  forall events w, P w -> P (run events w).
Proof.
  intros Hstep events. induction events as [|e events IH]; intros w Hw.
  - exact Hw.
  - rewrite run_cons. apply IH, Hstep, Hw.
Qed.

Lemma run_app (events1 events2 : list Event) (w : World) :
  run (events1 ++ events2) w = run events2 (run events1 w).
Proof. apply fold_left_app. Qed.

(** ** The React state after each handler *)

Lemma cleanup_react (w : World) : react (snd (cleanup w)) = react w.
Proof. rewrite cleanup_run. reflexivity. Qed.

Lemma handleStartChat_react (env : StartEnv) (w : World) :
  react (snd (handleStartChat env w))
  = if start_fails env
    then {| status := Error; transcript := [];
            error := Some start_failure_message |}
    else {| status := Connecting; transcript := []; error := None |}.
Proof.
  rewrite handleStartChat_run.
  match goal with
  | |- context [try_catch _ _ ?w0] =>
      destruct (try_acquire_run env w0) as [_ ->]
  end.
  reflexivity.
Qed.

Lemma onopen_react (now : num) (w : World) :
  react (snd (onopen now w))
  = {| status := Active; transcript := transcript (react w);
       error := error (react w) |}.
Proof.
  unfold onopen, bind, setStatus, setState, read. cbn.
  destruct (inputAudioContextRef (refs w)); reflexivity.
Qed.

Lemma onmessage_transcription_react (message : LiveServerMessage)
  (w : World) :
  let w' := snd (onmessage_transcription message w) in
  status (react w') = status (react w)
  /\ error (react w') = error (react w)
  /\ (transcript (react w') = transcript (react w)
      \/ exists turn,
           spoken turn = true
           /\ transcript (react w')
              = transcript (react w) ++ turn_entries [turn]).
Proof.
  cbv zeta. unfold onmessage_transcription.
  unfold bind, read, write, when, ret, setTranscript, setState.
  destruct (chain (serverContent message) outputTranscription);
    destruct (chain (serverContent message) inputTranscription);
    destruct (is_true (chain (serverContent message) turnComplete));
    cbn -[trim]; auto;
    match goal with
    | |- context [if ?c then _ else _] => destruct c eqn:Hspoken
    end; cbn -[trim]; auto;
    (split; [reflexivity|]; split; [reflexivity|]; right;
     eexists (_, _); split; [exact Hspoken | reflexivity]).
Qed.

Lemma onmessage_react (now : num) (message : LiveServerMessage) (w : World) :
  let w' := snd (onmessage now message w) in
  status (react w') = status (react w)
  /\ error (react w') = error (react w)
  /\ (transcript (react w') = transcript (react w)
      \/ exists turn,
           spoken turn = true
           /\ transcript (react w')
              = transcript (react w) ++ turn_entries [turn]).
Proof.
  cbv zeta. rewrite onmessage_split.
  destruct (onmessage_playback_frame now message
              (snd (onmessage_transcription message w))) as (-> & _).
  apply onmessage_transcription_react.
Qed.

(** ** The transcript is made of whole turns *)

Lemma turn_entries_app (turns1 turns2 : list (string * string)) :
  turn_entries (turns1 ++ turns2) = turn_entries turns1 ++ turn_entries turns2.
Proof. apply flat_map_app. Qed.

Lemma step_turns (w : World) (e : Event) :
  (exists turns, transcript (react w) = turn_entries turns
                 /\ forallb spoken turns = true) ->
  exists turns, transcript (react (step w e)) = turn_entries turns
                /\ forallb spoken turns = true.
Proof.
  intros (turns & Ht & Hs). unfold step.
  destruct e as [env| |now|now message| | |inputData|source|]; cbn [handler].
  - rewrite handleStartChat_react. exists [].
    destruct (start_fails env); split; reflexivity.
  - exists turns. unfold handleStopChat, bind. cbn [setStatus setState].
    rewrite cleanup_react. auto.
  - exists turns. rewrite onopen_react. auto.
  - destruct (onmessage_react now message w) as (_ & _ & [H|(turn & Hsp & H)]).
    + exists turns. rewrite H. auto.
    + exists (turns ++ [turn]). rewrite H, Ht, turn_entries_app.
      split; [reflexivity|]. rewrite forallb_app, Hs. cbn. now rewrite Hsp.
  - exists turns. unfold onerror, bind.
    cbn [call setError setStatus setState]. rewrite cleanup_react. auto.
  - exists turns. unfold onclose, bind. cbn [setStatus setState].
    rewrite cleanup_react. auto.
  - exists turns. unfold onaudioprocess, bind, read.
    destruct (sessionPromiseRef (refs w)); auto.
  - exists turns. auto.
  - exists turns. rewrite cleanup_react. auto.
Qed.

Lemma transcript_is_whole_turns_lemma (events : list Event) :
  exists turns,
    transcript (react (run events mounted)) = turn_entries turns
    /\ forallb spoken turns = true.
Proof.
  apply (run_invariant
           (fun w => exists turns, transcript (react w) = turn_entries turns
                                   /\ forallb spoken turns = true)).
  - intros w e. apply step_turns.
  - exists []. split; reflexivity.
Qed.

(** X1. Whatever events the component has handled since it was mounted, its
    transcript is a sequence of whole turns: a user entry immediately followed
    by a model entry, and in each turn at least one of the two texts is not
    blank.  So its length is even and it never holds a lone entry or a turn
    in which nobody spoke. *)
Theorem transcript_is_whole_turns (events : list Event) :
  exists turns,
    transcript (react (run events mounted)) = turn_entries turns
    /\ forallb spoken turns = true
    /\ List.length (transcript (react (run events mounted)))
       = 2 * List.length turns.
Proof.
  destruct (transcript_is_whole_turns_lemma events) as (turns & Ht & Hs).
  exists turns. split; [exact Ht|]. split; [exact Hs|].
  rewrite Ht. clear. unfold turn_entries.
  induction turns as [|turn turns IH]; [reflexivity|].
  cbn [flat_map app List.length]. rewrite IH. cbn. lia.
Qed.

(** ** Status, message and handles *)

Lemma onaudioprocess_state (inputData : list num) (w : World) :
  react (snd (onaudioprocess inputData w)) = react w
  /\ refs (snd (onaudioprocess inputData w)) = refs w
  /\ fresh (snd (onaudioprocess inputData w)) = fresh w.
Proof.
  unfold onaudioprocess, bind, read.
  destruct (sessionPromiseRef (refs w)); cbn; auto.
Qed.

Lemma nothing_held_released (r : Refs) : nothing_held (released r).
Proof. unfold nothing_held. cbn. auto 10. Qed.

Lemma step_error_has_message (w : World) (e : Event) :
  (status (react w) = Error ->
   exists m, error (react w) = Some m /\ truthy m = true) ->
  status (react (step w e)) = Error ->
  exists m, error (react (step w e)) = Some m /\ truthy m = true.
Proof.
  intros Hw. unfold step.
  destruct e as [env| |now|now message| | |inputData|source|]; cbn [handler].
  - rewrite handleStartChat_react. destruct (start_fails env); cbn.
    + intros _. exists start_failure_message. split; reflexivity.
    + discriminate.
  - unfold handleStopChat, bind. cbn [setStatus setState].
    rewrite cleanup_react. discriminate.
  - rewrite onopen_react. discriminate.
  - destruct (onmessage_react now message w) as (-> & -> & _). exact Hw.
  - intros _. unfold onerror, bind. cbn [call setError setStatus setState].
    rewrite cleanup_react. exists session_error_message. split; reflexivity.
  - unfold onclose, bind. cbn [setStatus setState]. rewrite cleanup_react.
    cbn. destruct (status (react w)); try discriminate. intros _. now apply Hw.
  - destruct (onaudioprocess_state inputData w) as (-> & _). exact Hw.
  - exact Hw.
  - rewrite cleanup_react. exact Hw.
Qed.

Lemma error_has_message (events : list Event) :
  let w := run events mounted in
  status (react w) = Error ->
  exists m, error (react w) = Some m /\ truthy m = true.
Proof.
  cbv zeta.
  apply (run_invariant
           (fun w => status (react w) = Error ->
                     exists m, error (react w) = Some m /\ truthy m = true)).
  - intros w e. apply step_error_has_message.
  - discriminate.
Qed.

(** ** The view *)

(** X3. Whatever events the component has handled since it was mounted,
    whenever its status is [Error] the view shows an error paragraph with a
    non-empty message and offers the start of a new chat. *)
Theorem error_is_shown (events : list Event) :
  let r := react (run events mounted) in
  status r = Error ->
  exists m,
    truthy m = true
    /\ In (error_paragraph m) (render r)
    /\ In (button "Start a New Chat" start_chat) (render r).
Proof.
  cbv zeta. intros Hs.
  destruct (error_has_message events Hs) as (m & Hm & Ht).
  exists m. split; [exact Ht|]. unfold render. rewrite Hs, Hm, Ht.
  rewrite !in_app_iff. cbn. tauto.
Qed.

Lemma spoken_turn_shows (turn : string * string)
  (rest : list TranscriptEntry) :
  spoken turn = true ->
  filter (fun entry => truthy (trim (text entry)))
    (turn_entries [turn] ++ rest) <> [].
Proof.
  unfold spoken. destruct turn as [i o]. cbn -[trim].
  destruct (truthy (trim i)); cbn -[trim]; [discriminate|].
  intros ->. discriminate.
Qed.

Lemma panel_in_singleton (bubbles bubbles' : list TranscriptEntry) :
  In (transcript_panel bubbles) [transcript_panel bubbles'] ->
  bubbles = bubbles'.
Proof. intros [H|[]]. now injection H. Qed.

(** X4. Whatever events the component has handled since it was mounted, a
    transcript panel in its view holds at least one bubble, and no bubble in
    it has a blank text: the entry of the side that said nothing in a turn
    is not shown, and the panel is never an empty box. *)
Theorem transcript_panel_bubbles (events : list Event)
  (bubbles : list TranscriptEntry) :
  In (transcript_panel bubbles) (render (react (run events mounted))) ->
  bubbles <> []
  /\ Forall (fun entry => truthy (trim (text entry)) = true) bubbles.
Proof.
  destruct (transcript_is_whole_turns_lemma events) as (turns & Ht & Hs).
  unfold render. rewrite Ht.
  intros H. rewrite !in_app_iff in H.
  assert (Hp : In (transcript_panel bubbles)
                 match turn_entries turns with
                 | [] => []
                 | entries =>
                     [transcript_panel
                        (filter (fun entry => truthy (trim (text entry)))
                           entries)]
                 end).
  { destruct H as [H|[H|[H|[H|[H|[H|H]]]]]]; try exact H; exfalso;
      [ destruct (status _) | destruct (status _) | destruct (status _)
      | destruct (status _)
      | destruct (error _) as [m|]; [destruct (truthy m)|]
      | destruct (status _), (turn_entries turns) ];
      cbn in H; try contradiction;
      destruct H as [H|[]]; discriminate. }
  clear H. destruct turns as [|turn turns]; [contradiction|].
  cbn [forallb] in Hs. apply andb_prop in Hs as [Hturn _].
  change (turn_entries (turn :: turns))
    with (turn_entries [turn] ++ turn_entries turns) in Hp.
  pose proof (spoken_turn_shows turn (turn_entries turns) Hturn) as Hne.
  destruct (turn_entries [turn] ++ turn_entries turns) as [|e0 es] eqn:E.
  { destruct turn; discriminate. }
  apply panel_in_singleton in Hp. subst bubbles.
  split; [exact Hne|].
  apply Forall_forall. intros entry Hin. apply filter_In in Hin. tauto.
Qed.

(** ** The handles after each handler *)

Lemma handleStartChat_refs (env : StartEnv) (w : World) :
  let r' := refs (snd (handleStartChat env w)) in
  handles_nested r'
  /\ sourcesRef r' = []
  /\ scriptProcessorRef r' = None
  /\ nextStartTimeRef r' = num_zero.
Proof.
  cbv zeta. rewrite handleStartChat_run.
  destruct env as [gum ic oc rs cn].
  unfold try_catch, acquire, start_failed, handles_nested.
  unfold bind, complete, read, write, call, create, ret, setError, setStatus,
         setState.
  cbn.
  destruct gum; cbn; [|intuition congruence].
  destruct ic; cbn; [|intuition congruence].
  destruct oc as [[id rate st]|]; cbn; [|intuition congruence].
  destruct st, rs as [[]|], cn; cbn; intuition congruence.
Qed.

Lemma onopen_refs (now : num) (w : World) :
  let w' := snd (onopen now w) in
  sessionPromiseRef (refs w') = sessionPromiseRef (refs w)
  /\ inputAudioContextRef (refs w') = inputAudioContextRef (refs w)
  /\ outputAudioContextRef (refs w') = outputAudioContextRef (refs w)
  /\ mediaStreamRef (refs w') = mediaStreamRef (refs w)
  /\ sourcesRef (refs w') = sourcesRef (refs w)
  /\ (scriptProcessorRef (refs w') = scriptProcessorRef (refs w)
      \/ inputAudioContextRef (refs w) <> None)
  /\ fresh w <= fresh w'
  /\ exists more, calls w' = calls w ++ more.
Proof.
  cbv zeta. unfold onopen, bind, setStatus, setState, read, write, call, create.
  cbn. destruct (inputAudioContextRef (refs w)) eqn:E; cbn.
  - repeat split; auto. right; discriminate.
    rewrite <- !app_assoc. eexists. reflexivity.
  - repeat split; auto. exists []. now rewrite app_nil_r.
Qed.

(** The audio half of [onmessage] keeps every handle; it either leaves the
    set of sources, the log and the nodes as they are, or creates one node,
    connects and starts it, and adds it to the set. *)
Lemma onmessage_playback_effect (now : num) (message : LiveServerMessage)
  (w : World) :
  let w' := snd (onmessage_playback now message w) in
  sessionPromiseRef (refs w') = sessionPromiseRef (refs w)
  /\ inputAudioContextRef (refs w') = inputAudioContextRef (refs w)
  /\ outputAudioContextRef (refs w') = outputAudioContextRef (refs w)
  /\ scriptProcessorRef (refs w') = scriptProcessorRef (refs w)
  /\ mediaStreamRef (refs w') = mediaStreamRef (refs w)
  /\ ((sourcesRef (refs w') = sourcesRef (refs w)
       /\ fresh w' = fresh w /\ calls w' = calls w)
      \/ (sourcesRef (refs w') = set_add (fresh w) (sourcesRef (refs w))
          /\ fresh w' = S (fresh w)
          /\ exists ctx t,
               calls w'
               = calls w ++ [ node_connect (fresh w) (destination ctx);
                              source_start (fresh w) t ])).
Proof.
  cbv zeta.
  unfold onmessage_playback, onmessage_audio, onmessage_resume,
         bind, complete, read, write, call, create, ret.
  destruct (base64Audio message) as [[b|]|]; cbn; auto 10.
  destruct (outputAudioContextRef (refs w)) as [ctx|] eqn:Hctx; cbn; auto 10.
  destruct (truthy b); cbn; auto 10.
  destruct (decode b) as [bytes|]; cbn; auto 10.
  destruct (decodeAudioData bytes ctx 24000%N 1%N) as [buf|]; cbn; auto 10.
  repeat split; auto. right. repeat split.
  rewrite <- app_assoc. do 2 eexists. reflexivity.
Qed.

Lemma onmessage_effect (now : num) (message : LiveServerMessage) (w : World) :
  let w' := snd (onmessage now message w) in
  sessionPromiseRef (refs w') = sessionPromiseRef (refs w)
  /\ inputAudioContextRef (refs w') = inputAudioContextRef (refs w)
  /\ outputAudioContextRef (refs w') = outputAudioContextRef (refs w)
  /\ scriptProcessorRef (refs w') = scriptProcessorRef (refs w)
  /\ mediaStreamRef (refs w') = mediaStreamRef (refs w)
  /\ ((sourcesRef (refs w') = sourcesRef (refs w)
       /\ fresh w' = fresh w /\ calls w' = calls w)
      \/ (sourcesRef (refs w') = set_add (fresh w) (sourcesRef (refs w))
          /\ fresh w' = S (fresh w)
          /\ exists ctx t,
               calls w'
               = calls w ++ [ node_connect (fresh w) (destination ctx);
                              source_start (fresh w) t ])).
Proof.
  cbv zeta. rewrite onmessage_split.
  pose proof (onmessage_transcription_frame message w) as H. cbv zeta in H.
  destruct H as (_ & Hc & Hf & Hsp & Hic & Hoc & Hpr & Hms & Hsrc & _).
  pose proof (onmessage_playback_effect now message
                (snd (onmessage_transcription message w))) as H.
  cbv zeta in H. rewrite Hc, Hf, Hsp, Hic, Hoc, Hpr, Hms, Hsrc in H. exact H.
Qed.

Lemma step_handles_nested (w : World) (e : Event) :
  handles_nested (refs w) -> handles_nested (refs (step w e)).
Proof.
  intros Hw. unfold step.
  destruct e as [env| |now|now message| | |inputData|source|]; cbn [handler].
  - apply handleStartChat_refs.
  - unfold handleStopChat, bind. cbn [setStatus setState]. rewrite cleanup_run.
    unfold handles_nested. cbn. intuition congruence.
  - destruct (onopen_refs now w) as (_ & Hic & Hoc & Hms & _ & Hpr & _).
    unfold handles_nested in *. rewrite Hic, Hoc, Hms.
    destruct Hpr as [->|Hin]; tauto.
  - destruct (onmessage_effect now message w)
      as (_ & Hic & Hoc & Hpr & Hms & _).
    unfold handles_nested in *. rewrite Hic, Hoc, Hpr, Hms. exact Hw.
  - unfold onerror, bind. cbn [call setError setStatus setState].
    rewrite cleanup_run. unfold handles_nested. cbn. intuition congruence.
  - unfold onclose, bind. cbn [setStatus setState]. rewrite cleanup_run.
    unfold handles_nested. cbn. intuition congruence.
  - destruct (onaudioprocess_state inputData w) as (_ & -> & _). exact Hw.
  - exact Hw.
  - rewrite cleanup_run. unfold handles_nested. cbn. intuition congruence.
Qed.

(** ** The parts of a handler *)

Lemma interleaved_cons (s : Segment) (segments : list Segment) (w : World) :
  interleaved (s :: segments) w = interleaved segments (advance w s).
Proof. reflexivity. Qed.

Lemma interleaved_invariant (P : World -> Prop) :
  (forall w s, P w -> P (advance w s)) ->
  forall segments w, P w -> P (interleaved segments w).
Proof.
  intros Hstep segments.
  induction segments as [|s segments IH]; intros w Hw.
  - exact Hw.
  - rewrite interleaved_cons. apply IH, Hstep, Hw.
Qed.

(** Handlers that run as a whole are a special case. *)
Lemma interleaved_whole (events : list Event) (w : World) :
  interleaved (map whole events) w = run events w.
Proof.
  revert w. induction events as [|e events IH]; intros w; [reflexivity|].
  cbn [map]. rewrite interleaved_cons, run_cons. apply IH.
Qed.

Lemma start_requested_run (w : World) :
  start_requested w
  = (Normal tt,
     {| react := {| status := Connecting; transcript := []; error := None |};
        refs := released (refs w);
        calls := calls w ++ teardown (refs w) ++ [getUserMedia];
        fresh := fresh w |}).
Proof.
  unfold start_requested, bind.
  cbn [setStatus setError setTranscript setState].
  rewrite cleanup_run. unfold call. cbn. now rewrite <- app_assoc.
Qed.

(** The parts of a start, run with nothing in between, are the start. *)
Lemma start_segments_whole (env : StartEnv) (w : World) :
  interleaved (start_segments env) w = snd (handleStartChat env w).
Proof.
  rewrite handleStartChat_run. unfold start_segments.
  rewrite interleaved_cons. unfold advance at 1. cbn [segment].
  rewrite start_requested_run. cbn [snd].
  destruct env as [gum ic oc rs cn]. cbn [answer_getUserMedia
    answer_inputAudioContext answer_outputAudioContext].
  unfold interleaved, advance, segment, try_catch, acquire, start_granted,
         start_resumed, start_connect, start_failed.
  unfold bind, complete, read, write, call, create, ret, when, setError,
         setStatus, setState.
  destruct gum; cbn; [|now rewrite <- !app_assoc].
  destruct ic; cbn; [|now rewrite <- !app_assoc].
  destruct oc as [[id rate st]|]; cbn; [|now rewrite <- !app_assoc].
  destruct st, rs as [[]|], cn; cbn; rewrite ?Nat.eqb_refl; cbn;
    now rewrite <- !app_assoc.
Qed.

(** The parts of an inbound message, run with nothing in between, are the
    message handler. *)
Lemma message_segments_whole (now : num) (message : LiveServerMessage)
  (w : World) :
  interleaved (message_segments now message w) w
  = step w (transport_message now message).
Proof.
  unfold message_segments, step. cbn [handler].
  unfold onmessage, onmessage_playback, bind.
  destruct (onmessage_transcription message w) as [[[]|e] w1] eqn:E1.
  - destruct (onmessage_audio now message w1) as [[[[ctx bytes]|]|e] w2]
      eqn:E2;
      cbn; unfold advance; cbn [segment]; unfold bind, ret;
      rewrite E1, E2; reflexivity.
  - cbn. unfold advance. cbn [segment]. unfold bind. rewrite E1. reflexivity.
Qed.

Lemma advance_handles_nested (w : World) (s : Segment) :
  handles_nested (refs w) -> handles_nested (refs (advance w s)).
Proof.
  intros Hw.
  destruct s as [e| |env|env output|now message|ctx decoded].
  - exact (step_handles_nested w e Hw).
  - unfold advance. cbn [segment]. rewrite start_requested_run.
    unfold handles_nested. cbn. intuition congruence.
  - unfold advance. cbn [segment].
    destruct env as [gum ic oc rs cn].
    destruct w as [r [sp icr ocr pr ms srcs nx ci co] log fr].
    unfold handles_nested in *. cbn in Hw.
    unfold try_catch, start_granted, start_connect, start_failed.
    unfold bind, complete, read, write, call, create, ret, setError,
           setStatus, setState.
    cbn.
    destruct gum; cbn; [|intuition congruence].
    destruct ic; cbn; [|intuition congruence].
    destruct oc as [[id rate st]|]; cbn; [|intuition congruence].
    destruct st, cn; cbn; intuition congruence.
  - unfold advance. cbn [segment].
    destruct env as [gum ic oc rs cn].
    destruct w as [r [sp icr ocr pr ms srcs nx ci co] log fr].
    unfold handles_nested in *. cbn in Hw.
    unfold try_catch, start_resumed, start_connect, start_failed.
    unfold bind, complete, read, write, call, create, ret, when, setError,
           setStatus, setState.
    cbn.
    destruct rs as [[]|]; cbn; [|exact Hw].
    destruct ocr as [held|]; cbn.
    + destruct (context_id held =? context_id output)%nat, cn; cbn;
        intuition congruence.
    + destruct cn; cbn; exact Hw.
  - unfold advance. cbn [segment].
    pose proof (onmessage_transcription_frame message w) as H.
    cbv zeta in H. unfold bind at 1.
    destruct (onmessage_transcription message w) as [[[]|e] w1];
      cbn [fst snd] in *;
      destruct H as (_ & _ & _ & _ & Hic & Hoc & Hpr & Hms & _);
      unfold handles_nested in *.
    + assert (Hr : inputAudioContextRef (refs (snd (onmessage_audio now message w1)))
                   = inputAudioContextRef (refs w1)
                   /\ outputAudioContextRef (refs (snd (onmessage_audio now message w1)))
                      = outputAudioContextRef (refs w1)
                   /\ scriptProcessorRef (refs (snd (onmessage_audio now message w1)))
                      = scriptProcessorRef (refs w1)
                   /\ mediaStreamRef (refs (snd (onmessage_audio now message w1)))
                      = mediaStreamRef (refs w1)).
      { unfold onmessage_audio, bind, complete, read, write, ret.
        destruct (base64Audio message) as [[b|]|]; cbn; auto 10.
        destruct (outputAudioContextRef (refs w1)) eqn:E; cbn; auto 10.
        destruct (truthy b); cbn; auto 10.
        destruct (decode b); cbn; auto 10. }
      destruct Hr as (Hic2 & Hoc2 & Hpr2 & Hms2).
      unfold bind, ret.
      destruct (onmessage_audio now message w1) as [[p|e] w2];
        cbn [fst snd] in *;
        rewrite Hic2, Hoc2, Hpr2, Hms2, Hic, Hoc, Hpr, Hms; exact Hw.
    + rewrite Hic, Hoc, Hpr, Hms. exact Hw.
  - unfold advance. cbn [segment].
    unfold onmessage_resume, bind, complete, read, write, call, create, ret.
    destruct decoded as [buffer|e]; cbn; exact Hw.
Qed.

(** X5. Whatever handlers and parts of handlers have run since the component
    was mounted, in whatever order (a start or a message handler may be cut
    at each of its awaits, with anything in between): the output context is
    held only together with the input context, the input context only
    together with the stream, and the capture node only together with the
    input context.  The session promise is not part of this: see
    [session_without_contexts]. *)
Theorem handles_are_nested (segments : list Segment) :
  handles_nested (refs (interleaved segments mounted)).
Proof.
  apply (interleaved_invariant (fun w => handles_nested (refs w))).
  - intros w s. apply advance_handles_nested.
  - unfold handles_nested. cbn. intuition congruence.
Qed.

Lemma onclose_run (w : World) :
  onclose w
  = (Normal tt,
     {| react := {| status := match status (react w) with
                              | Error => Error
                              | _ => Stopped
                              end;
                    transcript := transcript (react w);
                    error := error (react w) |};
        refs := released (refs w);
        calls := calls w ++ teardown (refs w);
        fresh := fresh w |}).
Proof.
  unfold onclose, bind. cbn [setStatus setState]. rewrite cleanup_run.
  reflexivity.
Qed.

(** X2. A close event that is handled while a start waits for the
    microphone (the close of the session that the start has just torn down,
    say) changes the status and nothing else: when the start goes on, and
    nothing in it fails, it makes the same calls and ends with the same
    handles as a start that was not interrupted, the stream, both contexts
    and the session promise among them, but the status is [Stopped], not
    [Connecting], and the view offers the start of a new chat. *)
Theorem close_during_start (env : StartEnv) (w : World) :
  start_fails env = false ->
  let uninterrupted := snd (handleStartChat env w) in
  let w' :=
    interleaved
      (start_clicked :: whole transport_close :: tl (start_segments env)) w in
  status (react uninterrupted) = Connecting
  /\ status (react w') = Stopped
  /\ refs w' = refs uninterrupted
  /\ calls w' = calls uninterrupted
  /\ mediaStreamRef (refs w') <> None
  /\ inputAudioContextRef (refs w') <> None
  /\ outputAudioContextRef (refs w') <> None
  /\ sessionPromiseRef (refs w') <> None
  /\ In (button "Start a New Chat" start_chat) (render (react w')).
Proof.
  intros Hok. cbv zeta.
  assert (Hstatus : status (react (snd (handleStartChat env w))) = Connecting).
  { rewrite handleStartChat_react, Hok. reflexivity. }
  split; [exact Hstatus|]. clear Hstatus.
  rewrite handleStartChat_run. unfold start_segments. cbn [tl].
  rewrite !interleaved_cons.
  change (advance w start_clicked) with (snd (start_requested w)).
  rewrite start_requested_run. cbn [snd].
  match goal with
  | |- context [advance ?x (whole transport_close)] =>
      change (advance x (whole transport_close)) with (snd (onclose x))
  end.
  rewrite onclose_run.
  cbn [snd react refs calls fresh status transcript error].
  rewrite released_released, teardown_released, app_nil_r.
  destruct env as [gum ic oc rs cn]. unfold start_fails in Hok.
  cbn [answer_getUserMedia answer_inputAudioContext
       answer_outputAudioContext answer_resume answer_connect] in *.
  unfold interleaved, advance, segment, try_catch, acquire, start_granted,
         start_resumed, start_connect, start_failed.
  unfold bind, complete, read, write, call, create, ret, when, setError,
         setStatus, setState.
  destruct gum; [|discriminate].
  destruct ic; [|discriminate].
  destruct oc as [[id rate st]|]; [|discriminate].
  destruct cn; [|discriminate].
  destruct st, rs as [[]|]; cbn in Hok |- *; try discriminate;
    rewrite ?Nat.eqb_refl; cbn; rewrite <- ?app_assoc; cbn;
    repeat split; try discriminate;
    unfold render; cbn; tauto.
Qed.

(** ** The set of playback sources *)

Lemma set_add_fresh (x : nat) (s : list nat) :
  Forall (fun y => y < x) s -> set_add x s = s ++ [x].
Proof.
  intros H. unfold set_add.
  replace (existsb (Nat.eqb x) s) with false; [reflexivity|].
  symmetry. induction H as [|y s Hy _ IH]; cbn; [reflexivity|].
  rewrite IH, orb_false_r. apply Nat.eqb_neq. lia.
Qed.

Lemma set_delete_spec (x y : nat) (s : list nat) :
  In y (set_delete x s) <-> In y s /\ y <> x.
Proof.
  unfold set_delete. rewrite filter_In, negb_true_iff, Nat.eqb_neq.
  intuition congruence.
Qed.

Lemma was_started_app (s : AudioBufferSourceNode) (log more : list Call) :
  was_started s log = true -> was_started s (log ++ more) = true.
Proof.
  unfold was_started. rewrite existsb_app. now intros ->.
Qed.

Lemma sources_sound_grow (w w' : World) :
  sourcesRef (refs w') = sourcesRef (refs w) ->
  fresh w <= fresh w' ->
  (exists more, calls w' = calls w ++ more) ->
  sources_sound w -> sources_sound w'.
Proof.
  intros Hs Hf (more & Hc) (Hnd & Hlt & Hst). unfold sources_sound.
  rewrite Hs, Hc. repeat split; [exact Hnd | |].
  - eapply Forall_impl; [|exact Hlt]. cbn. intros. lia.
  - eapply Forall_impl; [|exact Hst]. intros s. apply was_started_app.
Qed.

Lemma sources_sound_empty (w : World) :
  sourcesRef (refs w) = [] -> sources_sound w.
Proof.
  intros H. unfold sources_sound. rewrite H.
  repeat split; constructor.
Qed.

Lemma step_sources_sound (w : World) (e : Event) :
  sources_sound w -> sources_sound (step w e).
Proof.
  intros Hw. unfold step.
  destruct e as [env| |now|now message| | |inputData|source|]; cbn [handler].
  - apply sources_sound_empty. apply handleStartChat_refs.
  - apply sources_sound_empty. unfold handleStopChat, bind.
    cbn [setStatus setState]. rewrite cleanup_run. reflexivity.
  - destruct (onopen_refs now w) as (_ & _ & _ & _ & Hs & _ & Hf & Hc).
    exact (sources_sound_grow w _ Hs Hf Hc Hw).
  - destruct (onmessage_effect now message w)
      as (_ & _ & _ & _ & _ & [(Hs & Hf & Hc)|(Hs & Hf & ctx & t & Hc)]).
    + apply (sources_sound_grow w _ Hs); [lia | | exact Hw].
      exists []. now rewrite app_nil_r.
    + destruct Hw as (Hnd & Hlt & Hst). unfold sources_sound.
      rewrite Hs, Hf, Hc, (set_add_fresh _ _ Hlt). repeat split.
      * apply NoDup_app; [exact Hnd | repeat constructor; intros [] |].
        intros x Hx [<-|[]]. rewrite Forall_forall in Hlt.
        specialize (Hlt _ Hx). lia.
      * apply Forall_app. split.
        -- eapply Forall_impl; [|exact Hlt]. cbn. intros. lia.
        -- repeat constructor.
      * apply Forall_app. split.
        -- eapply Forall_impl; [|exact Hst]. intros s. apply was_started_app.
        -- repeat constructor. unfold was_started. rewrite existsb_app. cbn.
           now rewrite Nat.eqb_refl, !orb_true_r.
  - apply sources_sound_empty. unfold onerror, bind.
    cbn [call setError setStatus setState]. rewrite cleanup_run. reflexivity.
  - apply sources_sound_empty. unfold onclose, bind.
    cbn [setStatus setState]. rewrite cleanup_run. reflexivity.
  - destruct (onaudioprocess_state inputData w) as (_ & Hr & Hf).
    apply (sources_sound_grow w); [now rewrite Hr | lia | | exact Hw].
    unfold onaudioprocess, bind, read.
    destruct (sessionPromiseRef (refs w)); cbn; eexists;
      [reflexivity | symmetry; apply app_nil_r].
  - destruct Hw as (Hnd & Hlt & Hst). unfold sources_sound. cbn.
    unfold set_delete. repeat split.
    + now apply NoDup_filter.
    + rewrite Forall_forall in *. intros x Hx. apply filter_In in Hx.
      now apply Hlt.
    + rewrite Forall_forall in *. intros x Hx. apply filter_In in Hx.
      now apply Hst.
  - apply sources_sound_empty. rewrite cleanup_run. reflexivity.
Qed.

Lemma sources_sound_always (events : list Event) :
  sources_sound (run events mounted).
Proof.
  apply (run_invariant sources_sound).
  - intros w e. apply step_sources_sound.
  - apply sources_sound_empty. reflexivity.
Qed.

(** X6. Whatever events the component has handled since it was mounted, its
    set of playback sources holds no source twice and only sources on which
    [start] was called before: the [stop] that [cleanup] calls on each of
    them is never called on a source that was not started. *)
Theorem playback_sources_were_started (events : list Event) :
  let w := run events mounted in
  NoDup (sourcesRef (refs w))
  /\ Forall (fun s => was_started s (calls w) = true) (sourcesRef (refs w))
  /\ forall s, In (source_stop s) (teardown (refs w)) ->
               was_started s (calls w) = true.
Proof.
  cbv zeta. destruct (sources_sound_always events) as (Hnd & _ & Hst).
  split; [exact Hnd|]. split; [exact Hst|].
  intros s Hin. unfold teardown in Hin. rewrite !in_app_iff in Hin.
  rewrite Forall_forall in Hst. apply Hst.
  destruct Hin as [H|[H|[H|[H|[H|H]]]]].
  - destruct (mediaStreamRef _); [|contradiction].
    apply in_map_iff in H as (t & Ht & _). discriminate.
  - destruct (scriptProcessorRef _); [|contradiction].
    destruct H as [H|[]]. discriminate.
  - destruct (open_context _); [|contradiction].
    destruct H as [H|[]]. discriminate.
  - destruct (open_context _); [|contradiction].
    destruct H as [H|[]]. discriminate.
  - destruct (sessionPromiseRef _); [|contradiction].
    destruct H as [H|[]]. discriminate.
  - apply in_map_iff in H as (s' & Hs' & Hin). now injection Hs' as <-.
Qed.

(** ** Starting, failing to start, and starting again *)

Lemma handled_no_track_stop_tail (more : list Call) :
  forallb (fun c => negb (is_track_stop c))
    (more ++ [console_error "Failed to start chat:"])
  = forallb (fun c => negb (is_track_stop c)) more.
Proof. rewrite forallb_app. cbn. apply andb_true_r. Qed.



(** X9. The close event that follows a transport error changes nothing: the
    status stays [Error], the message stays, and since nothing is held any
    more nothing is released a second time. *)
Theorem close_after_error (w : World) :
  let w1 := step w transport_error in
  let w2 := step w1 transport_close in
  status (react w2) = Error
  /\ error (react w2) = Some session_error_message
  /\ transcript (react w2) = transcript (react w)
  /\ calls w2 = calls w1
  /\ refs w2 = refs w1.
Proof.
  cbv zeta. unfold step. cbn [handler].
  unfold onclose, onerror, bind. cbn [call setError setStatus setState].
  rewrite !cleanup_run. cbn.
  rewrite app_nil_r. repeat split; reflexivity.
Qed.

(** ** [onopen] *)

(** X10. Whenever the input context is held, the open event completes: the
    status is [Active]; a source for the stream, the capture node and a gain
    node are created, in this order; the capture node is kept in its ref;
    the gain is set to 0 at the clock reading, and the three are connected
    source to capture node to gain to the destination of the input context.
    No other handle, nor the transcript or the error, changes. *)
Theorem onopen_completes_while_input_held (now : num) (w : World)
  (inputCtx : AudioContext) :
  inputAudioContextRef (refs w) = Some inputCtx ->
  let w' := snd (onopen now w) in
  let source := fresh w in
  let scriptProcessor := S (fresh w) in
  let gainNode := S (S (fresh w)) in
  fst (onopen now w) = Normal tt
  /\ react w' = {| status := Active; transcript := transcript (react w);
                   error := error (react w) |}
  /\ refs w' = set_scriptProcessorRef (Some scriptProcessor) (refs w)
  /\ calls w'
     = calls w
       ++ [ node_connect source (node scriptProcessor);
            gain_setValueAtTime gainNode num_zero now;
            node_connect scriptProcessor (node gainNode);
            node_connect gainNode (destination (context_id inputCtx)) ]
  /\ fresh w' = S (S (S (fresh w))).
Proof.
  intros Hin. cbv zeta.
  unfold onopen, bind, setStatus, setState, read, write, call, create.
  cbn. rewrite Hin. cbn. rewrite <- !app_assoc. repeat split.
Qed.

(** X11. An open event that arrives after the session was torn down sets
    the status to [Active] and then throws [TypeError]: it installs no
    capture node, creates no node and makes no call, so the view shows an
    active chat in which nothing is held. *)
Theorem onopen_after_cleanup (now : num) (w : World) :
  let w0 := snd (cleanup w) in
  let w' := snd (onopen now w0) in
  fst (onopen now w0) = Throw TypeError
  /\ status (react w') = Active
  /\ refs w' = refs w0
  /\ calls w' = calls w0
  /\ fresh w' = fresh w0
  /\ In (button "Stop Chat" stop_chat) (render (react w')).
Proof.
  cbv zeta. rewrite cleanup_run. cbn.
  repeat split. unfold render. cbn. rewrite !in_app_iff. cbn. tauto.
Qed.

(** ** Playback: one chunk, its end, and decodes in flight *)

(** One chunk, in full: the node the browser creates is started at the
    clamped time and joins the set. *)
Lemma chunk_step_sources (w : World) (ctx : AudioContext) (c : Chunk) :
  outputAudioContextRef (refs w) = Some ctx ->
  chunk_decodes ctx c ->
  let w' := step w (chunk_event c) in
  sourcesRef (refs w') = set_add (fresh w) (sourcesRef (refs w))
  /\ fresh w' = S (fresh w)
  /\ calls w'
     = calls w
       ++ [ node_connect (fresh w) (destination (context_id ctx));
            source_start (fresh w)
              (num_max (nextStartTimeRef (refs w)) (fst (fst c))) ].
Proof.
  destruct c as [[t message] d]. unfold chunk_decodes, chunk_duration.
  cbn [fst snd]. intros Hctx Hd. cbv zeta.
  unfold step, chunk_event. cbn [handler fst snd].
  rewrite onmessage_split.
  pose proof (onmessage_transcription_frame message w) as H. cbv zeta in H.
  destruct (onmessage_transcription message w) as [c0 w1]. cbn [fst snd] in *.
  destruct H as (_ & Hcalls & Hfresh & _ & _ & Hoc & _ & _ & Hsrc & Hnx).
  rewrite <- Hcalls, <- Hnx, <- Hfresh, <- Hsrc. rewrite <- Hoc in Hctx.
  clear Hcalls Hnx Hoc Hfresh Hsrc.
  unfold onmessage_playback, onmessage_audio, onmessage_resume,
         bind, complete, read, write, call, create, ret.
  destruct (base64Audio message) as [[b|]|]; try discriminate.
  cbn. rewrite Hctx.
  destruct (truthy b); try discriminate.
  cbn. destruct (decode b) as [bytes|]; try discriminate.
  cbn. destruct (decodeAudioData bytes ctx 24000%N 1%N) as [buf|];
    try discriminate.
  cbn. rewrite <- app_assoc. auto.
Qed.

Lemma set_delete_last (x : nat) (s : list nat) :
  Forall (fun y => y < x) s -> set_delete x (s ++ [x]) = s.
Proof.
  intros H. unfold set_delete. rewrite filter_app. cbn.
  rewrite Nat.eqb_refl. cbn. rewrite app_nil_r.
  induction H as [|y s Hy _ IH]; cbn; [reflexivity|].
  replace (x =? y)%nat with false by (symmetry; apply Nat.eqb_neq; lia).
  cbn. now rewrite IH.
Qed.

(** X12. In a state reached from the mounted component, a chunk that is
    played adds exactly its own new source to the set of playback sources;
    when that source ends the set is what it was before the chunk; and a
    [cleanup] stops the source if it runs before the end and does not touch
    it if it runs after. *)
Theorem source_joins_and_leaves (events : list Event) (ctx : AudioContext)
  (c : Chunk) :
  let w := run events mounted in
  outputAudioContextRef (refs w) = Some ctx ->
  chunk_decodes ctx c ->
  let w1 := step w (chunk_event c) in
  let w2 := step w1 (ended (fresh w)) in
  sourcesRef (refs w1) = sourcesRef (refs w) ++ [fresh w]
  /\ sourcesRef (refs w2) = sourcesRef (refs w)
  /\ In (source_stop (fresh w)) (teardown (refs w1))
  /\ ~ In (source_stop (fresh w)) (teardown (refs w2)).
Proof.
  cbv zeta. intros Hctx Hd.
  destruct (sources_sound_always events) as (_ & Hlt & _).
  destruct (chunk_step_sources _ ctx c Hctx Hd) as (Hs & _ & _).
  rewrite (set_add_fresh _ _ Hlt) in Hs.
  assert (Hs2 : sourcesRef (refs (step (step (run events mounted)
                                           (chunk_event c))
                                     (ended (fresh (run events mounted)))))
                = sourcesRef (refs (run events mounted))).
  { unfold step at 1. cbn [handler]. unfold onended, bind, read, write. cbn.
    rewrite Hs. now apply set_delete_last. }
  split; [exact Hs|]. split; [exact Hs2|]. split.
  - destruct (teardown_complete
                (refs (step (run events mounted) (chunk_event c))))
      as (_ & _ & _ & _ & H).
    apply H. rewrite Hs, in_app_iff. right. now left.
  - unfold teardown. rewrite !in_app_iff, Hs2.
    intros [H|[H|[H|[H|[H|H]]]]].
    + destruct (mediaStreamRef _); [|contradiction].
      apply in_map_iff in H as (t & Ht & _). discriminate.
    + destruct (scriptProcessorRef _); [|contradiction].
      destruct H as [H|[]]. discriminate.
    + destruct (open_context _); [|contradiction].
      destruct H as [H|[]]. discriminate.
    + destruct (open_context _); [|contradiction].
      destruct H as [H|[]]. discriminate.
    + destruct (sessionPromiseRef _); [|contradiction].
      destruct H as [H|[]]. discriminate.
    + apply in_map_iff in H as (s' & Hs' & Hin). injection Hs' as ->.
      rewrite Forall_forall in Hlt. specialize (Hlt _ Hin). lia.
Qed.

(** X13. A handler whose decode is still in flight when [cleanup] runs
    resumes all the same: it starts a new source at time 0 on the context it
    captured, which [cleanup] has closed; it leaves [nextStartTimeRef] at the
    chunk's duration and the source in the set, although every handle is
    null.  The source is stopped by the next [cleanup] only. *)
Theorem decode_resumes_after_cleanup
  (ctx : AudioContext) (audioBuffer : AudioBuffer num) (w : World) :
  let w0 := snd (cleanup w) in
  let w1 := snd (onmessage_resume ctx (Normal audioBuffer) w0) in
  fst (onmessage_resume ctx (Normal audioBuffer) w0) = Normal tt
  /\ calls w1
     = calls w0 ++ [ node_connect (fresh w) (destination (context_id ctx));
                     source_start (fresh w) num_zero ]
  /\ sourcesRef (refs w1) = [fresh w]
  /\ nextStartTimeRef (refs w1) = num_add num_zero (duration audioBuffer)
  /\ outputAudioContextRef (refs w1) = None
  /\ sessionPromiseRef (refs w1) = None
  /\ react w1 = react w
  /\ In (source_stop (fresh w)) (calls (snd (cleanup w1))).
Proof.
  cbv zeta. rewrite !cleanup_run. cbn. rewrite <- !app_assoc. cbn.
  repeat split. rewrite !in_app_iff. cbn. tauto.
Qed.

Lemma onmessage_audio_run (t : num) (base64 : string) (w : World)
  (ctx : AudioContext) (bytes : list nat) :
  outputAudioContextRef (refs w) = Some ctx ->
  truthy base64 = true ->
  decode base64 = Normal bytes ->
  onmessage_audio t (audio_message base64) w
  = (Normal (Some (ctx, bytes)),
     {| react := react w;
        refs := set_nextStartTimeRef
                  (num_max (nextStartTimeRef (refs w)) t) (refs w);
        calls := calls w; fresh := fresh w |}).
Proof.
  intros Hctx Ht Hd.
  unfold onmessage_audio, bind, complete, read, write, ret.
  cbn [audio_message base64Audio chain serverContent modelTurn parts
       nth_error inlineData data].
  rewrite Hctx, Ht. cbn [refs]. rewrite Hd. reflexivity.
Qed.

Lemma onmessage_resume_run (ctx : AudioContext) (buffer : AudioBuffer num)
  (w : World) :
  onmessage_resume ctx (Normal buffer) w
  = (Normal tt,
     {| react := react w;
        refs := set_sourcesRef (set_add (fresh w) (sourcesRef (refs w)))
                  (set_nextStartTimeRef
                     (num_add (nextStartTimeRef (refs w)) (duration buffer))
                     (refs w));
        calls := calls w
                 ++ [ node_connect (fresh w) (destination (context_id ctx));
                      source_start (fresh w) (nextStartTimeRef (refs w)) ];
        fresh := S (fresh w) |}).
Proof.
  unfold onmessage_resume, bind, complete, read, write, call, create, ret.
  cbn. rewrite <- app_assoc. reflexivity.
Qed.

(** X14. Two chunks whose decodes overlap: both first halves run (at clock
    readings t1 and t2) before either resumes.  The first chunk then starts
    at max(max(next, t1), t2), not at max(next, t1), and the second starts
    exactly where the first ends: the chunks still play back to back, in the
    order in which the decodes complete. *)
Theorem overlapping_decodes (w : World) (ctx : AudioContext)
  (base64_1 base64_2 : string) (bytes1 bytes2 : list nat)
  (buffer1 buffer2 : AudioBuffer num) (t1 t2 : num) :
  outputAudioContextRef (refs w) = Some ctx ->
  truthy base64_1 = true -> truthy base64_2 = true ->
  decode base64_1 = Normal bytes1 -> decode base64_2 = Normal bytes2 ->
  let w1 := snd (onmessage_audio t1 (audio_message base64_1) w) in
  let w2 := snd (onmessage_audio t2 (audio_message base64_2) w1) in
  let w3 := snd (onmessage_resume ctx (Normal buffer1) w2) in
  let w4 := snd (onmessage_resume ctx (Normal buffer2) w3) in
  let start1 := num_max (num_max (nextStartTimeRef (refs w)) t1) t2 in
  let start2 := num_add start1 (duration buffer1) in
  fst (onmessage_audio t1 (audio_message base64_1) w)
  = Normal (Some (ctx, bytes1))
  /\ fst (onmessage_audio t2 (audio_message base64_2) w1)
     = Normal (Some (ctx, bytes2))
  /\ started (calls w4) = started (calls w) ++ [start1; start2]
  /\ nextStartTimeRef (refs w4) = num_add start2 (duration buffer2).
Proof.
  intros Hctx H1 H2 Hd1 Hd2. cbv zeta.
  rewrite (onmessage_audio_run t1 base64_1 w ctx bytes1 Hctx H1 Hd1).
  cbn [fst snd].
  match goal with
  | |- context [onmessage_audio t2 _ ?w1] =>
      rewrite (onmessage_audio_run t2 base64_2 w1 ctx bytes2 Hctx H2 Hd2)
  end.
  cbn [fst snd]. rewrite !onmessage_resume_run. cbn [fst snd].
  cbn [calls refs fresh nextStartTimeRef set_sourcesRef set_nextStartTimeRef].
  rewrite <- !app_assoc, !started_app. cbn [started flat_map app].
  repeat split; reflexivity.
Qed.

(** ** Accumulators across sessions *)

Lemma flush_without_fragments (now : num) (message : LiveServerMessage)
  (content : LiveServerContent) (w : World) :
  serverContent message = Some content ->
  turnComplete content = Some true ->
  inputTranscription content = None ->
  outputTranscription content = None ->
  transcript (react (snd (onmessage now message w)))
  = if spoken (currentInputTranscriptionRef (refs w),
               currentOutputTranscriptionRef (refs w))
    then transcript (react w)
         ++ turn_entries [ (currentInputTranscriptionRef (refs w),
                            currentOutputTranscriptionRef (refs w)) ]
    else transcript (react w).
Proof.
  intros Hc Ht Hi Ho. rewrite onmessage_split.
  destruct (onmessage_playback_frame now message
              (snd (onmessage_transcription message w))) as (-> & _).
  unfold onmessage_transcription. rewrite Hc. cbn [chain]. rewrite Ht, Hi, Ho.
  unfold spoken, bind, read, write, when, ret, setTranscript, setState.
  cbn -[trim].
  match goal with
  | |- context [if ?c then _ else _] => destruct c
  end; reflexivity.
Qed.

(** X15. Neither [cleanup] nor a start empties the two accumulators.  So
    when a session ends in the middle of a turn, the fragments it had
    gathered are still there in the next session: the first end of turn of
    the new session (here one that brings no fragment of its own) puts them
    into the new, otherwise empty, transcript. *)
Theorem fragments_cross_sessions (env : StartEnv) (now : num)
  (message : LiveServerMessage) (content : LiveServerContent) (w : World) :
  serverContent message = Some content ->
  turnComplete content = Some true ->
  inputTranscription content = None ->
  outputTranscription content = None ->
  let w' := run [click_start env; transport_message now message] w in
  transcript (react w')
  = if spoken (currentInputTranscriptionRef (refs w),
               currentOutputTranscriptionRef (refs w))
    then [ {| speaker := user;
              text := currentInputTranscriptionRef (refs w) |};
           {| speaker := model;
              text := currentOutputTranscriptionRef (refs w) |} ]
    else [].
Proof.
  intros Hc Ht Hi Ho. cbv zeta. rewrite !run_cons. cbn [run fold_left].
  unfold step at 1. cbn [handler].
  rewrite (flush_without_fragments now message content _ Hc Ht Hi Ho).
  unfold step. cbn [handler].
  destruct (accumulators_survive_restart env w) as [-> ->].
  rewrite handleStartChat_react.
  destruct (start_fails env), (spoken _); reflexivity.
Qed.

(** ** Scheduling on an ordered clock *)

Section OrderedClock.

(** What the bounds below use of the order of numbers and of [Math.max]. *)
Variable le : num -> num -> Prop.
Hypothesis max_above_left : forall a b, le a (num_max a b).
Hypothesis max_above_right : forall a b, le b (num_max a b).
Hypothesis max_absorbs : forall a b, le b a -> num_max a b = a.


End OrderedClock.

End VoiceChat.

(** * The properties on a concrete session

    Rational numbers for the clock, the stand-ins above for
    [utils/audioUtils], and a session started from the freshly mounted
    component with every answer favourable. *)

Local Abbreviation sample_step :=
  (step sample_lesson sample_createPcmBlob sample_decode sample_decodeAudioData).
Local Abbreviation sample_run :=
  (run sample_lesson sample_createPcmBlob sample_decode sample_decodeAudioData).
Local Abbreviation sample_onmessage :=
  (onmessage sample_decode sample_decodeAudioData).
Local Abbreviation started_session := (sample_step mounted (click_start answers_ok)).
Local Abbreviation sample_advance :=
  (advance sample_lesson sample_createPcmBlob sample_decode
     sample_decodeAudioData).
Local Abbreviation sample_interleaved :=
  (interleaved sample_lesson sample_createPcmBlob sample_decode
     sample_decodeAudioData).

(** The example of the specification: durations 0.5, 0.3, 0.4 arriving at
    clock times 0, 0.6, 0.9 start at 0, 0.6, 0.9 and leave 1.3. *)
Example gapless_example :
  map (fun p => (Qred (fst p), Qred (snd p)))
    (gapless 0%Q [ (0, 1#2); (3#5, 3#10); (9#10, 2#5) ]%Q)
  = [ (0, 1#2); (3#5, 9#10); (9#10, 13#10) ]%Q.
Proof. reflexivity. Qed.

(** A chunk that arrives late is started at the clock, not in the past. *)
Example gapless_late_chunk :
  map (fun p => (Qred (fst p), Qred (snd p)))
    (gapless 0%Q [ (0, 1#2); (2#1, 3#10) ]%Q)
  = [ (0, 1#2); (2#1, 23#10) ]%Q.
Proof. reflexivity. Qed.


Lemma capture_frames_sent_in_order_witness :
  let frames := [ [1#2; 1#4]; [3#1] ]%Q in
  sessionPromiseRef (refs started_session) = Some 3
  /\ sent 3 (calls (sample_run (map audioprocess frames) started_session))
     = sent 3 (calls started_session) ++ map sample_createPcmBlob frames.
Proof.
  cbv zeta. split; [reflexivity|].
  assert (Hp : sessionPromiseRef (refs started_session) = Some 3)
    by reflexivity.
  pose proof (capture_frames_sent_in_order sample_lesson
                sample_createPcmBlob sample_decode sample_decodeAudioData
                [ [1#2; 1#4]; [3#1] ]%Q started_session 3 Hp)
    as (_ & H & _).
  exact H.
Defined.

Lemma turn_complete_flushes_witness :
  let content :=
    {| outputTranscription := Some {| fragment := "" |};
       inputTranscription := Some {| fragment := "Hola" |};
       turnComplete := Some true; modelTurn := None |} in
  let w' := snd (sample_onmessage 0%Q {| serverContent := Some content |}
                   mounted) in
  transcript (react w')
  = [ {| speaker := user; text := "Hola" |};
      {| speaker := model; text := "" |} ]
  /\ currentInputTranscriptionRef (refs w') = ""
  /\ currentOutputTranscriptionRef (refs w') = "".
Proof.
  cbv zeta.
  exact (turn_complete_flushes sample_decode sample_decodeAudioData 0%Q
           {| serverContent :=
                Some {| outputTranscription := Some {| fragment := "" |};
                        inputTranscription := Some {| fragment := "Hola" |};
                        turnComplete := Some true; modelTurn := None |} |}
           _ mounted eq_refl eq_refl).
Defined.

(** The fragments of a turn arriving one message at a time. *)
Example turn_in_three_messages :
  let said (t : string) :=
    {| serverContent :=
         Some {| outputTranscription := None;
                 inputTranscription := Some {| fragment := t |};
                 turnComplete := None; modelTurn := None |} |} in
  let complete :=
    {| serverContent :=
         Some {| outputTranscription := None; inputTranscription := None;
                 turnComplete := Some true; modelTurn := None |} |} in
  transcript (react (sample_run
    [ transport_message 0%Q (said "Ho"); transport_message 0%Q (said "la");
      transport_message 0%Q complete ] mounted))
  = [ {| speaker := user; text := "Hola" |};
      {| speaker := model; text := "" |} ]
  /\ transcript (react (sample_run
       [ transport_message 0%Q (said "  "); transport_message 0%Q complete ]
       mounted)) = []
  /\ currentInputTranscriptionRef (refs (sample_run
       [ transport_message 0%Q (said "  "); transport_message 0%Q complete ]
       mounted)) = "".
Proof. cbv zeta. repeat split; reflexivity. Qed.

(** Against C7: with the microphone refused, and with the microphone granted
    but no audio context to be had, [handleStartChat] returns normally both
    times and leaves the same status and the same message, the one about the
    microphone; in the second case the stream stays held. *)
Lemma start_failures_not_distinguished :
  let denied :=
    handleStartChat (num:=Q) sample_lesson answers_microphone_denied mounted in
  let no_graph :=
    handleStartChat (num:=Q) sample_lesson answers_no_audio_graph mounted in
  fst denied = Normal tt
  /\ fst no_graph = Normal tt
  /\ react (snd denied) = react (snd no_graph)
  /\ error (react (snd no_graph))
     = Some "Could not access microphone. Please check permissions and try again."
  /\ mediaStreamRef (refs (snd denied)) = None
  /\ mediaStreamRef (refs (snd no_graph)) = Some sample_stream.
Proof. cbv zeta. repeat split; reflexivity. Qed.

(** A started session that plays one chunk and then meets a transport error:
    the track, both contexts and the playing source are stopped or closed. *)
Example error_during_playback :
  let w :=
    sample_run [ click_start answers_ok; transport_open 0%Q;
                 transport_message 0%Q (audio_message "AAAAA");
                 transport_error ] mounted in
  status (react w) = Error
  /\ sourcesRef (refs w) = []
  /\ skipn 13 (calls w)
     = [ console_error "Session error:"; track_stop 7; node_disconnect 2;
         context_close 1 true; context_close 2 true;
         promise_then 3 session_close true; source_stop 4 ].
Proof. cbv zeta. repeat split; reflexivity. Qed.

(** C9, at an input on which it fails.  An audio message reaches an active
    session and its handler waits for the decode; the user stops the chat,
    so that [cleanup] runs and every handle is null; then the decode
    completes.  The handler goes on with the context it captured before the
    wait: it connects a new source to the destination of the closed context
    and starts it, adds it to the set of playback sources and advances
    [nextStartTimeRef] from 0 to the duration of the chunk.  When the source
    ends its listener changes the set once more. *)
Theorem decode_in_flight_plays_after_stop :
  let message := audio_message "AAAAA" in
  let ctx := {| context_id := 2; sampleRate := 24000%N; state := running |} in
  let active :=
    sample_run [click_start answers_ok; transport_open 0%Q] mounted in
  let decoded := sample_decodeAudioData [65; 65; 65; 65; 65] ctx 24000%N 1%N in
  let waiting := sample_advance active (decode_begun (1#10)%Q message) in
  let stopped := sample_advance waiting (whole click_stop) in
  let resumed := sample_advance stopped (decode_settled ctx decoded) in
  let finished := sample_advance resumed (whole (ended 4)) in
  message_segments sample_decode sample_decodeAudioData (1#10)%Q message
    active
  = [decode_begun (1#10)%Q message; decode_settled ctx decoded]
  /\ status (react stopped) = Stopped
  /\ nothing_held (refs stopped)
  /\ nextStartTimeRef (refs stopped) = 0%Q
  /\ calls resumed
     = calls stopped
       ++ [node_connect 4 (destination 2); source_start 4 0%Q]
  /\ sourcesRef (refs resumed) = [4]
  /\ nextStartTimeRef (refs resumed) = (5#10)%Q
  /\ sourcesRef (refs finished) = [].
Proof.
  cbv zeta. unfold nothing_held. repeat apply conj; vm_compute; reflexivity.
Qed.

(** C10, at an input on which it fails.  In a first session the user is
    heard saying [Hola] and stops the chat before the turn is complete:
    nothing was shown.  The next start empties the transcript and the error.
    In the new session the model answers and completes the turn: the
    transcript now shows [Hola], said in the previous session, as the
    user's part of the new session's first turn. *)
Theorem previous_session_text_in_new_transcript :
  let heard (t : string) :=
    {| serverContent :=
         Some {| outputTranscription := None;
                 inputTranscription := Some {| fragment := t |};
                 turnComplete := None; modelTurn := None |} |} in
  let answered (t : string) :=
    {| serverContent :=
         Some {| outputTranscription := Some {| fragment := t |};
                 inputTranscription := None;
                 turnComplete := Some true; modelTurn := None |} |} in
  let first :=
    sample_run [ click_start answers_ok; transport_open 0%Q;
                 transport_message 0%Q (heard "Hola"); click_stop ] mounted in
  let restarted := sample_step first (click_start answers_ok) in
  let second :=
    sample_run [ transport_open 0%Q;
                 transport_message 0%Q (answered "Bonjour") ] restarted in
  transcript (react first) = []
  /\ transcript (react restarted) = []
  /\ error (react restarted) = None
  /\ transcript (react second)
     = [ {| speaker := user; text := "Hola" |};
         {| speaker := model; text := "Bonjour" |} ].
Proof. cbv zeta. repeat apply conj; vm_compute; reflexivity. Qed.

(** * The further properties on concrete sessions *)

Lemma close_during_start_witness :
  let stopped :=
    sample_run [click_start answers_ok; transport_open 0%Q; click_stop]
      mounted in
  let w' :=
    sample_interleaved
      (start_clicked :: whole transport_close
         :: tl (start_segments answers_ok)) stopped in
  status (react w') = Stopped
  /\ mediaStreamRef (refs w') <> None
  /\ sessionPromiseRef (refs w') <> None.
Proof.
  cbv zeta.
  assert (Hok : start_fails answers_ok = false) by reflexivity.
  destruct (close_during_start sample_lesson sample_createPcmBlob
              sample_decode sample_decodeAudioData answers_ok
              (sample_run [click_start answers_ok; transport_open 0%Q;
                           click_stop] mounted) Hok)
    as (_ & Hs & _ & _ & Hm & _ & _ & Hp & _).
  repeat split; assumption.
Defined.

Lemma error_is_shown_witness :
  let r := react (sample_run [click_start answers_microphone_denied]
                    mounted) in
  status r = Error
  /\ exists m,
       truthy m = true
       /\ In (error_paragraph m) (render r)
       /\ In (button "Start a New Chat" start_chat) (render r).
Proof.
  cbv zeta.
  assert (H : status (react (sample_run
                               [click_start answers_microphone_denied]
                               mounted)) = Error) by reflexivity.
  split; [exact H|].
  exact (error_is_shown sample_lesson sample_createPcmBlob sample_decode
           sample_decodeAudioData [click_start answers_microphone_denied] H).
Defined.

Lemma transcript_panel_bubbles_witness :
  let turn :=
    {| serverContent :=
         Some {| outputTranscription := None;
                 inputTranscription := Some {| fragment := "Hola" |};
                 turnComplete := Some true; modelTurn := None |} |} in
  let bubbles := [ {| speaker := user; text := "Hola" |} ] in
  In (transcript_panel bubbles)
    (render (react (sample_run [transport_message 0%Q turn] mounted)))
  /\ bubbles <> []
  /\ Forall (fun entry => truthy (trim (text entry)) = true) bubbles.
Proof.
  cbv zeta.
  assert (H : In (transcript_panel [ {| speaker := user; text := "Hola" |} ])
                (render (react (sample_run
                   [transport_message 0%Q
                      {| serverContent :=
                           Some {| outputTranscription := None;
                                   inputTranscription :=
                                     Some {| fragment := "Hola" |};
                                   turnComplete := Some true;
                                   modelTurn := None |} |}] mounted))))
    by (vm_compute; tauto).
  split; [exact H|].
  exact (transcript_panel_bubbles sample_lesson sample_createPcmBlob
           sample_decode sample_decodeAudioData _ _ H).
Defined.



Lemma onopen_completes_while_input_held_witness :
  let w := sample_run [click_start answers_ok] mounted in
  fst (onopen (num:=Q) 0%Q w) = Normal tt
  /\ scriptProcessorRef (refs (snd (onopen (num:=Q) 0%Q w))) = Some 2.
Proof.
  cbv zeta.
  assert (H : inputAudioContextRef
                (refs (sample_run [click_start answers_ok] mounted))
              = Some {| context_id := 1; sampleRate := 16000;
                        state := running |}) by reflexivity.
  destruct (onopen_completes_while_input_held (num:=Q) 0%Q
              (sample_run [click_start answers_ok] mounted) _ H)
    as (H1 & _ & H2 & _).
  split; [exact H1|]. rewrite H2. reflexivity.
Defined.

(** A close event handled while a start waits for [resume]: the contexts and
    the stream of the start are released, and the start still goes on to
    open a session.  The session promise is then held without a stream or a
    context, and the open event of that session sets the status to [Active]
    and throws. *)
Example session_without_contexts :
  let output := {| context_id := 2; sampleRate := 24000%N;
                   state := suspended |} in
  let w :=
    sample_interleaved
      [ start_clicked; microphone_settled answers_ok;
        whole transport_close; resume_settled answers_ok output ] mounted in
  sessionPromiseRef (refs w) = Some 3
  /\ mediaStreamRef (refs w) = None
  /\ inputAudioContextRef (refs w) = None
  /\ outputAudioContextRef (refs w) = None
  /\ status (react w) = Stopped
  /\ fst (onopen (num:=Q) 0%Q w) = Throw TypeError
  /\ status (react (snd (onopen (num:=Q) 0%Q w))) = Active.
Proof. cbv zeta. repeat split; reflexivity. Qed.

Lemma source_joins_and_leaves_witness :
  let c : @Chunk Q := (0%Q, audio_message "AAAAA", (5#10)%Q) in
  let w := sample_run [click_start answers_ok] mounted in
  let w1 := sample_step w (chunk_event c) in
  let w2 := sample_step w1 (ended (fresh w)) in
  sourcesRef (refs w1) = sourcesRef (refs w) ++ [fresh w]
  /\ sourcesRef (refs w2) = sourcesRef (refs w).
Proof.
  cbv zeta.
  assert (Hctx : outputAudioContextRef
                   (refs (sample_run [click_start answers_ok] mounted))
                 = Some {| context_id := 2; sampleRate := 24000;
                           state := running |}) by reflexivity.
  assert (Hd : chunk_decodes sample_decode sample_decodeAudioData
                 {| context_id := 2; sampleRate := 24000; state := running |}
                 (0%Q, audio_message "AAAAA", (5#10)%Q)) by reflexivity.
  destruct (source_joins_and_leaves sample_lesson sample_createPcmBlob
              sample_decode sample_decodeAudioData [click_start answers_ok]
              {| context_id := 2; sampleRate := 24000; state := running |}
              (0%Q, audio_message "AAAAA", (5#10)%Q) Hctx Hd)
    as (H1 & H2 & _).
  split; [exact H1 | exact H2].
Defined.

Lemma overlapping_decodes_witness :
  let ctx := {| context_id := 2; sampleRate := 24000; state := running |} in
  let w1 := snd (onmessage_audio sample_decode (1#10)%Q
                   (audio_message "AAAAA") started_session) in
  let w2 := snd (onmessage_audio sample_decode (2#10)%Q
                   (audio_message "AAA") w1) in
  let w3 := snd (onmessage_resume ctx (Normal {| duration := (5#10)%Q |})
                   w2) in
  let w4 := snd (onmessage_resume ctx (Normal {| duration := (3#10)%Q |})
                   w3) in
  started (calls w4)
  = started (calls started_session)
    ++ [ Qmax (Qmax 0 (1#10)) (2#10);
         Qplus (Qmax (Qmax 0 (1#10)) (2#10)) (5#10) ].
Proof.
  cbv zeta.
  assert (Hctx : outputAudioContextRef (refs started_session)
                 = Some {| context_id := 2; sampleRate := 24000;
                           state := running |}) by reflexivity.
  assert (H1 : truthy "AAAAA" = true) by reflexivity.
  assert (H2 : truthy "AAA" = true) by reflexivity.
  assert (Hd1 : sample_decode "AAAAA" = Normal [65; 65; 65; 65; 65])
    by reflexivity.
  assert (Hd2 : sample_decode "AAA" = Normal [65; 65; 65]) by reflexivity.
  destruct (overlapping_decodes sample_decode started_session _ _ _ _ _
              {| duration := (5#10)%Q |} {| duration := (3#10)%Q |}
              (1#10)%Q (2#10)%Q Hctx H1 H2 Hd1 Hd2) as (_ & _ & H & _).
  exact H.
Defined.

Lemma fragments_cross_sessions_witness :
  let complete :=
    {| serverContent := Some {| outputTranscription := None;
                                inputTranscription := None;
                                turnComplete := Some true;
                                modelTurn := None |} |} in
  let w :=
    sample_run
      [ click_start answers_ok;
        transport_message 0%Q
          {| serverContent :=
               Some {| outputTranscription := None;
                       inputTranscription := Some {| fragment := "Hola" |};
                       turnComplete := None; modelTurn := None |} |};
        click_stop ] mounted in
  currentInputTranscriptionRef (refs w) = "Hola"
  /\ transcript (react w) = []
  /\ transcript (react (sample_run
        [click_start answers_ok; transport_message 0%Q complete] w))
     = if spoken (currentInputTranscriptionRef (refs w),
                  currentOutputTranscriptionRef (refs w))
       then [ {| speaker := user;
                 text := currentInputTranscriptionRef (refs w) |};
              {| speaker := model;
                 text := currentOutputTranscriptionRef (refs w) |} ]
       else [].
Proof.
  cbv zeta. split; [reflexivity|]. split; [reflexivity|].
  assert (Hc : serverContent
                 {| serverContent :=
                      Some {| outputTranscription := None;
                              inputTranscription := None;
                              turnComplete := Some true;
                              modelTurn := None |} |}
               = Some {| outputTranscription := None;
                         inputTranscription := None;
                         turnComplete := Some true; modelTurn := None |})
    by reflexivity.
  assert (Ht : turnComplete {| outputTranscription := None;
                               inputTranscription := None;
                               turnComplete := Some true;
                               modelTurn := None |} = Some true)
    by reflexivity.
  assert (Hi : inputTranscription {| outputTranscription := None;
                                     inputTranscription := None;
                                     turnComplete := Some true;
                                     modelTurn := None |} = None)
    by reflexivity.
  assert (Ho : outputTranscription {| outputTranscription := None;
                                      inputTranscription := None;
                                      turnComplete := Some true;
                                      modelTurn := None |} = None)
    by reflexivity.
  exact (fragments_cross_sessions sample_lesson sample_createPcmBlob
           sample_decode sample_decodeAudioData answers_ok 0%Q _ _ _
           Hc Ht Hi Ho).
Defined.

Lemma Qmax_above_left (a b : Q) : Qle a (Qmax a b).
Proof. apply Q.le_max_l. Qed.

Lemma Qmax_above_right (a b : Q) : Qle b (Qmax a b).
Proof. apply Q.le_max_r. Qed.

Lemma Qmax_absorbs (a b : Q) : Qle b a -> Qmax a b = a.
Proof.
  intros H. unfold Qmax, GenericMinMax.gmax.
  destruct (a ?= b)%Q eqn:E; try reflexivity.
  apply Qlt_alt in E. exfalso. exact (Qlt_not_le _ _ E H).
Qed.


(** * Properties of the saved lessons *)

Module StorageFacts.
Import Storage.

Section Facts.

Context {B : Browser}.

(** ** Records *)

Lemma get_set_same {V} (k : string) (v : V) (d : Dict V) :
  get k (set k v d) = Some v.
Proof.
  induction d as [|[k' v'] d IH]; cbn.
  - now rewrite String.eqb_refl.
  - destruct (String.eqb k k') eqn:E; cbn; rewrite E; [reflexivity | exact IH].
Qed.

Lemma get_set_other {V} (k k' : string) (v : V) (d : Dict V) :
  k <> k' -> get k' (set k v d) = get k' d.
Proof.
  intros Hne. induction d as [|[k0 v0] d IH]; cbn.
  - apply String.eqb_neq in Hne. rewrite String.eqb_sym in Hne.
    now rewrite Hne.
  - destruct (String.eqb k k0) eqn:E; cbn.
    + apply String.eqb_eq in E. subst k0.
      destruct (String.eqb k' k) eqn:E'; [|reflexivity].
      apply String.eqb_eq in E'. congruence.
    + destruct (String.eqb k' k0); [reflexivity | exact IH].
Qed.

(** Writing a property that is there keeps the order of the keys; writing a
    new one puts it last. *)
Lemma keys_set {V} (k : string) (v : V) (d : Dict V) :
  map fst (set k v d)
  = match get k d with
    | Some _ => map fst d
    | None => map fst d ++ [k]
    end.
Proof.
  induction d as [|[k' v'] d IH]; cbn; [reflexivity|].
  destruct (String.eqb k k') eqn:E; cbn; [reflexivity|].
  rewrite IH. now destruct (get k d).
Qed.

(** What [getSavedLessons] returns once [value] was stored. *)
Lemma read_back (value : string) (data : Saved) (lines : list ConsoleLine) :
  truthy value = true ->
  JSON_parse value = Normal data ->
  getSavedLessons {| item := Some value; console := lines |}
  = (data, {| item := Some value; console := lines |}).
Proof.
  intros Ht Hp. unfold getSavedLessons. cbn. now rewrite Ht, Hp.
Qed.

Lemma getSavedLessons_item (st : Store) :
  item (snd (getSavedLessons st)) = item st.
Proof.
  unfold getSavedLessons. destruct st as [[s|] lines]; cbn; [|reflexivity].
  destruct (truthy s); [|reflexivity].
  destruct (JSON_parse s); reflexivity.
Qed.

(** ** Saving an analysis *)

(** X17. Saving the analysis of a video and reading the store back (the
    written value fits, and parses to what was written): the video's entry
    has the new transcript and chapters and the lessons it had before, if
    any; every other video's entry is as it was; and the order of the videos
    is kept, a new video coming last. *)
Theorem analysis_is_saved (url' transcript' : string)
  (chapters' : list VideoChapter) (st : Store) :
  let before := fst (getSavedLessons st) in
  let kept := match get url' before with
              | Some data => lessons data
              | None => []
              end in
  let entry := {| url := url'; transcript := transcript';
                  chapters := chapters'; lessons := kept |} in
  let written := JSON_stringify (set url' entry before) in
  fits written = true ->
  truthy written = true ->
  JSON_parse written = Normal (set url' entry before) ->
  let after := fst (getSavedLessons
                      (saveVideoAnalysis url' transcript' chapters' st)) in
  get url' after = Some entry
  /\ (forall other, url' <> other -> get other after = get other before)
  /\ map fst after
     = match get url' before with
       | Some _ => map fst before
       | None => map fst before ++ [url']
       end.
Proof.
  cbv zeta. intros Hfits Htruthy Hparse.
  unfold saveVideoAnalysis.
  destruct (getSavedLessons st) as [before st1] eqn:Hget. cbn [fst] in *.
  assert (Hentry :
            {| url := url'; transcript := transcript'; chapters := chapters';
               lessons := lessons
                            match get url' before with
                            | Some data => data
                            | None => {| url := url'; transcript := transcript';
                                         chapters := []; lessons := [] |}
                            end |}
            = {| url := url'; transcript := transcript';
                 chapters := chapters';
                 lessons := match get url' before with
                            | Some data => lessons data
                            | None => []
                            end |}).
  { destruct (get url' before); reflexivity. }
  rewrite Hentry. unfold setItem. rewrite Hfits.
  rewrite (read_back _ _ _ Htruthy Hparse). cbn [fst].
  split; [apply get_set_same|]. split; [|apply keys_set].
  intros other Hne. now apply get_set_other.
Qed.

(** X18. When the value to write does not fit the quota, neither save
    throws and neither changes the stored item: the failure is logged and
    what was saved before stays as it was. *)
Theorem save_over_quota_changes_nothing (url' transcript' : string)
  (chapters' : list VideoChapter) (chapter : VideoChapter) (lesson : Lesson)
  (st : Store) :
  (forall value, fits value = false) ->
  item (saveVideoAnalysis url' transcript' chapters' st) = item st
  /\ item (saveLessonForVideo url' chapter lesson st) = item st
  /\ exists line,
       console (saveVideoAnalysis url' transcript' chapters' st)
       = console (snd (getSavedLessons st)) ++ [console_error line].
Proof.
  intros Hfull. unfold saveVideoAnalysis, saveLessonForVideo.
  pose proof (getSavedLessons_item st) as Hitem.
  destruct (getSavedLessons st) as [before st1]. cbn [snd] in *.
  unfold setItem. rewrite !Hfull. cbn.
  split; [exact Hitem|]. split.
  - destruct (get url' before); [rewrite Hfull|destruct (inherited url')];
      cbn; exact Hitem.
  - eexists. reflexivity.
Qed.

(** X19. A stored value that does not parse reads as no saved lessons at
    all (the failure is logged); the next analysis saved then replaces it by
    a store that holds that one video only, and until then a lesson cannot be
    saved for any video. *)
Theorem corrupt_store_is_overwritten (value url' transcript' : string)
  (chapters' : list VideoChapter) (chapter : VideoChapter) (lesson : Lesson)
  (lines : list ConsoleLine) (e : JsError) :
  let st := {| item := Some value; console := lines |} in
  let only := [ (url', {| url := url'; transcript := transcript';
                          chapters := chapters'; lessons := [] |}) ] in
  truthy value = true ->
  JSON_parse value = Throw e ->
  fst (getSavedLessons st) = []
  /\ item (saveLessonForVideo url' chapter lesson st) = Some value
  /\ (fits (JSON_stringify only) = true ->
      item (saveVideoAnalysis url' transcript' chapters' st)
      = Some (JSON_stringify only)).
Proof.
  cbv zeta. intros Ht Hp.
  unfold saveVideoAnalysis, saveLessonForVideo, getSavedLessons.
  cbn. rewrite Ht, Hp. cbn. repeat split.
  - destruct (inherited url'); reflexivity.
  - intros Hfits. unfold setItem. rewrite Hfits. reflexivity.
Qed.

(** ** Saving a lesson *)

Lemma lesson_unknown_store (url' : string) (chapter : VideoChapter)
  (lesson : Lesson) (st : Store) :
  get url' (fst (getSavedLessons st)) = None ->
  item (saveLessonForVideo url' chapter lesson st) = item st.
Proof.
  intros Hnone. unfold saveLessonForVideo.
  pose proof (getSavedLessons_item st) as Hitem.
  destruct (getSavedLessons st) as [before st1]. cbn [fst snd] in *.
  rewrite Hnone. destruct (inherited url'); exact Hitem.
Qed.

(** X20. A lesson for a video that has no entry in the store is not saved:
    the stored item stays as it is.  What is logged depends on the URL.  For
    a URL that is no property name of [Object.prototype] the [else] branch
    runs and warns, naming the URL.  For one that is ([constructor],
    [toString], [__proto__], ...) the [if] branch runs on the inherited
    value, the assignment throws and the [catch] logs an error. *)
Theorem lesson_for_unknown_video_is_dropped (url' : string)
  (chapter : VideoChapter) (lesson : Lesson) (st : Store) :
  get url' (fst (getSavedLessons st)) = None ->
  let st' := saveLessonForVideo url' chapter lesson st in
  item st' = item st
  /\ console st'
     = console (snd (getSavedLessons st))
       ++ [ if inherited url'
            then console_error "Failed to save lesson to localStorage:"
            else console_warn
                   (String.append
                      "Attempted to save a lesson for a video that hasn't been analyzed: "
                      url') ].
Proof.
  intros Hnone. cbv zeta. unfold saveLessonForVideo.
  pose proof (getSavedLessons_item st) as Hitem.
  destruct (getSavedLessons st) as [before st1]. cbn [fst snd] in *.
  rewrite Hnone. destruct (inherited url'); cbn; auto.
Qed.

Lemma assign_is_set {V} (k : string) (v : V) (d : Dict V) :
  k <> "__proto__" -> assign k v d = set k v d.
Proof.
  intros Hk. unfold assign. destruct (get k d); [reflexivity|].
  apply String.eqb_neq in Hk. now rewrite Hk.
Qed.

(** X21. Saving a lesson for a video that has an entry, under a chapter
    title other than [__proto__], and reading the store back (the written
    value fits, and parses to what was written): the entry keeps its
    transcript and chapters; the lesson is found under the chapter's title,
    so every chapter of the video with that title shows it in its row; the
    lessons under other titles and the other videos are as they were. *)
Theorem lesson_is_saved (url' : string) (chapter : VideoChapter)
  (lesson : Lesson) (data : SavedLessonData) (st : Store) :
  let before := fst (getSavedLessons st) in
  let entry := {| url := url data; transcript := transcript data;
                  chapters := chapters data;
                  lessons := set (title chapter) lesson (lessons data) |} in
  let written := JSON_stringify (set url' entry before) in
  get url' before = Some data ->
  title chapter <> "__proto__" ->
  fits written = true ->
  truthy written = true ->
  JSON_parse written = Normal (set url' entry before) ->
  let after := fst (getSavedLessons
                      (saveLessonForVideo url' chapter lesson st)) in
  get url' after = Some entry
  /\ (forall same, In same (chapters data) -> title same = title chapter ->
                   In (same, Some lesson) (rows entry))
  /\ (forall other, title chapter <> other ->
                    get other (lessons entry) = get other (lessons data))
  /\ (forall other, url' <> other -> get other after = get other before)
  /\ map fst after = map fst before.
Proof.
  cbv zeta. intros Hdata Htitle Hfits Htruthy Hparse.
  unfold saveLessonForVideo.
  destruct (getSavedLessons st) as [before st1] eqn:Hget. cbn [fst] in *.
  rewrite Hdata, (assign_is_set _ _ _ Htitle). unfold setItem. rewrite Hfits.
  rewrite (read_back _ _ _ Htruthy Hparse). cbn [fst].
  split; [apply get_set_same|]. split; [|split; [|split]].
  - intros same Hin Hsame. unfold rows. cbn [chapters lessons].
    apply in_map_iff. exists same. split; [|exact Hin].
    now rewrite Hsame, get_set_same.
  - intros other Hne. cbn [lessons]. now apply get_set_other.
  - intros other Hne. now apply get_set_other.
  - rewrite keys_set, Hdata. reflexivity.
Qed.

(** ** Clearing *)

(** X22. After [clearAllSavedData] the store reads as empty, whatever it
    held and even if it did not parse, and a lesson saved next is dropped:
    the item stays absent. *)
Theorem clear_forgets_everything (url' : string) (chapter : VideoChapter)
  (lesson : Lesson) (st : Store) :
  let cleared := clearAllSavedData st in
  getSavedLessons cleared = ([], cleared)
  /\ item (saveLessonForVideo url' chapter lesson cleared) = None.
Proof.
  cbv zeta. split; [reflexivity|].
  unfold saveLessonForVideo. cbn. destruct (inherited url'); reflexivity.
Qed.

End Facts.

(** ** On the concrete store *)

Lemma analysis_is_saved_witness :
  let B := sample_browser sample_lesson in
  let st := {| item := None; console := [] |} in
  get sample_url
    (fst (getSavedLessons
            (saveVideoAnalysis sample_url "hola" [sample_chapter] st)))
  = Some {| url := sample_url; transcript := "hola";
            chapters := [sample_chapter]; lessons := [] |}.
Proof.
  cbv zeta.
  assert (Hfits : @fits (sample_browser sample_lesson)
                    (@JSON_stringify (sample_browser sample_lesson)
                       sample_analysed) = true) by reflexivity.
  assert (Htruthy : truthy (@JSON_stringify (sample_browser sample_lesson)
                              sample_analysed) = true) by reflexivity.
  assert (Hparse : @JSON_parse (sample_browser sample_lesson)
                     (@JSON_stringify (sample_browser sample_lesson)
                        sample_analysed) = Normal sample_analysed)
    by reflexivity.
  destruct (@analysis_is_saved (sample_browser sample_lesson) sample_url
              "hola" [sample_chapter] {| item := None; console := [] |}
              Hfits Htruthy Hparse) as (H & _).
  exact H.
Defined.

Lemma save_over_quota_changes_nothing_witness :
  let st := {| item := Some "kept"; console := [] |} in
  item (@saveVideoAnalysis full_browser sample_url "hola" [sample_chapter] st)
  = Some "kept".
Proof.
  cbv zeta.
  assert (Hfull : forall value, @fits full_browser value = false)
    by reflexivity.
  destruct (@save_over_quota_changes_nothing full_browser sample_url "hola"
              [sample_chapter] sample_chapter sample_lesson
              {| item := Some "kept"; console := [] |} Hfull) as (H & _).
  exact H.
Defined.

Lemma corrupt_store_is_overwritten_witness :
  let B := sample_browser sample_lesson in
  let st := {| item := Some "garbage"; console := [] |} in
  fst (getSavedLessons st) = []
  /\ item (saveVideoAnalysis sample_url "hola" [sample_chapter] st)
     = Some "analysed".
Proof.
  cbv zeta.
  assert (Ht : truthy "garbage" = true) by reflexivity.
  assert (Hp : @JSON_parse (sample_browser sample_lesson) "garbage"
               = Throw (DOMException "SyntaxError")) by reflexivity.
  destruct (@corrupt_store_is_overwritten (sample_browser sample_lesson)
              "garbage" sample_url "hola" [sample_chapter] sample_chapter
              sample_lesson [] _ Ht Hp) as (H1 & _ & H3).
  split; [exact H1|]. apply H3. reflexivity.
Defined.

Lemma lesson_for_unknown_video_is_dropped_witness :
  let B := sample_browser sample_lesson in
  let st := {| item := Some "analysed"; console := [] |} in
  item (saveLessonForVideo "https://youtu.be/other" sample_chapter
          sample_lesson st)
  = Some "analysed".
Proof.
  cbv zeta.
  assert (Hnone : get "https://youtu.be/other"
                    (fst (@getSavedLessons (sample_browser sample_lesson)
                            {| item := Some "analysed"; console := [] |}))
                  = None) by reflexivity.
  destruct (@lesson_for_unknown_video_is_dropped
              (sample_browser sample_lesson) "https://youtu.be/other"
              sample_chapter sample_lesson
              {| item := Some "analysed"; console := [] |} Hnone) as (H & _).
  exact H.
Defined.

Lemma lesson_is_saved_witness :
  let B := sample_browser sample_lesson in
  let st := {| item := Some "analysed"; console := [] |} in
  let entry := {| url := sample_url; transcript := "hola";
                  chapters := [sample_chapter];
                  lessons := [("Saludos", sample_lesson)] |} in
  get sample_url
    (fst (getSavedLessons
            (saveLessonForVideo sample_url sample_chapter sample_lesson st)))
  = Some entry
  /\ rows entry = [(sample_chapter, Some sample_lesson)].
Proof.
  cbv zeta. split; [|reflexivity].
  assert (Hdata : get sample_url
                    (fst (@getSavedLessons (sample_browser sample_lesson)
                            {| item := Some "analysed"; console := [] |}))
                  = Some {| url := sample_url; transcript := "hola";
                            chapters := [sample_chapter]; lessons := [] |})
    by reflexivity.
  assert (Htitle : title sample_chapter <> "__proto__")
    by (intros E; vm_compute in E; discriminate E).
  assert (Hfits : @fits (sample_browser sample_lesson) "with lesson" = true)
    by reflexivity.
  assert (Htruthy : truthy "with lesson" = true) by reflexivity.
  assert (Hparse : @JSON_parse (sample_browser sample_lesson) "with lesson"
                   = Normal (sample_with_lesson sample_lesson))
    by reflexivity.
  destruct (@lesson_is_saved (sample_browser sample_lesson) sample_url
              sample_chapter sample_lesson _
              {| item := Some "analysed"; console := [] |}
              Hdata Htitle Hfits Htruthy Hparse) as (H & _).
  exact H.
Defined.

(** The URL field of the form is not validated when a lesson is generated:
    with [constructor] in it the save throws inside its own [try]. *)
Example lesson_under_inherited_name :
  let B := sample_browser sample_lesson in
  let st := {| item := Some "analysed"; console := [] |} in
  saveLessonForVideo "constructor" sample_chapter sample_lesson st
  = {| item := Some "analysed";
       console := [console_error "Failed to save lesson to localStorage:"] |}
  /\ assign "__proto__" sample_lesson [("Saludos", sample_lesson)]
     = [("Saludos", sample_lesson)].
Proof. cbv zeta. apply conj; vm_compute; reflexivity. Qed.

End StorageFacts.

(** * Properties of the form *)

Module AppFacts.
Import App.

(** ** Strings *)

Lemma append_empty_r (s : string) : String.append s "" = s.
Proof. induction s as [|c s IH]; cbn; [reflexivity | now rewrite IH]. Qed.

Lemma append_assoc (s1 s2 s3 : string) :
  String.append (String.append s1 s2) s3
  = String.append s1 (String.append s2 s3).
Proof. induction s1 as [|c s1 IH]; cbn; [reflexivity | now rewrite IH]. Qed.

Lemma append_is_empty (s1 s2 : string) :
  String.append s1 s2 = "" -> s1 = "" /\ s2 = "".
Proof. destruct s1; cbn; [auto | discriminate]. Qed.

(** ** The matcher accepts exactly what the pattern stands for *)

Lemma denotes_empty_nullable (r : Regex) (s : string) :
  denotes r s -> s = "" -> nullable r = true.
Proof.
  induction 1 as [ | | | r1 r2 s1 s2 _ IH1 _ IH2 | r1 r2 s _ IH
                   | r1 r2 s _ IH | | ]; intros E; cbn;
    try reflexivity; try discriminate.
  - apply append_is_empty in E as [E1 E2]. now rewrite IH1, IH2.
  - now rewrite IH.
  - rewrite IH by assumption. apply orb_true_r.
Qed.

Lemma nullable_denotes (r : Regex) : nullable r = true -> denotes r "".
Proof.
  induction r as [ | | | r1 IH1 r2 IH2 | r1 IH1 r2 IH2 | r IH | ]; cbn;
    intros H; try discriminate.
  - constructor.
  - apply andb_prop in H as [H1 H2].
    change "" with (String.append "" ""). constructor; auto.
  - apply orb_prop in H as [H|H];
      [apply denotes_alt_l | apply denotes_alt_r]; auto.
  - constructor.
Qed.

Lemma after_denotes (r : Regex) (c : ascii) (s : string) :
  denotes (after c r) s -> denotes r (String c s).
Proof.
  revert s.
  induction r as [ | c' | | r1 IH1 r2 IH2 | r1 IH1 r2 IH2 | r IH | ];
    cbn; intros s H.
  - inversion H.
  - destruct (Ascii.eqb c c') eqn:E; inversion H; subst.
    apply Ascii.eqb_eq in E. subst. constructor.
  - destruct (line_terminator c) eqn:E; inversion H; subst. now constructor.
  - destruct (nullable r1) eqn:E.
    + inversion H as [ | | | | ? ? ? H1 | ? ? ? H2 | | ]; subst.
      * inversion H1; subst.
        change (String c (String.append s1 s2))
          with (String.append (String c s1) s2).
        constructor; auto.
      * change (String c s) with (String.append "" (String c s)).
        constructor; [now apply nullable_denotes | auto].
    + inversion H; subst.
      change (String c (String.append s1 s2))
        with (String.append (String c s1) s2).
      constructor; auto.
  - inversion H; subst; [apply denotes_alt_l | apply denotes_alt_r]; auto.
  - inversion H; subst.
    change (String c (String.append s1 s2))
      with (String.append (String c s1) s2).
    constructor; auto.
  - inversion H.
Qed.

Lemma denotes_after (r : Regex) (s' : string) :
  denotes r s' ->
  forall c s, s' = String c s -> denotes (after c r) s.
Proof.
  induction 1 as [ | c' | c' Hc | r1 r2 s1 s2 H1 IH1 H2 IH2
                   | r1 r2 s0 _ IH | r1 r2 s0 _ IH
                   | | r s1 s2 H1 IH1 H2 IH2 ]; intros c s E; cbn.
  - discriminate.
  - injection E as <- <-. rewrite Ascii.eqb_refl. constructor.
  - injection E as <- <-. rewrite Hc. constructor.
  - destruct s1 as [|c1 s1]; cbn in E.
    + rewrite (denotes_empty_nullable _ _ H1 eq_refl).
      apply denotes_alt_r. now apply IH2.
    + injection E as -> <-.
      destruct (nullable r1);
        [apply denotes_alt_l|]; constructor; auto.
  - apply denotes_alt_l. now apply IH.
  - apply denotes_alt_r. now apply IH.
  - discriminate.
  - destruct s1 as [|c1 s1]; cbn in E.
    + now apply IH2.
    + injection E as -> <-. constructor; auto.
Qed.

Lemma matches_denotes (r : Regex) (s : string) :
  matches r s = true <-> denotes r s.
Proof.
  revert r. induction s as [|c s IH]; intros r; cbn.
  - split; [apply nullable_denotes|].
    intros H. now apply (denotes_empty_nullable r "").
  - rewrite IH. split; [apply after_denotes|].
    intros H. now apply (denotes_after r (String c s)).
Qed.

(** ** Reading a pattern *)

Lemma denotes_seq_iff (r1 r2 : Regex) (s : string) :
  denotes (Seq r1 r2) s
  <-> exists s1 s2, s = String.append s1 s2 /\ denotes r1 s1 /\ denotes r2 s2.
Proof.
  split.
  - intros H. inversion H; subst. eauto.
  - intros (s1 & s2 & -> & H1 & H2). now constructor.
Qed.

Lemma denotes_alt_iff (r1 r2 : Regex) (s : string) :
  denotes (Alt r1 r2) s <-> denotes r1 s \/ denotes r2 s.
Proof.
  split.
  - intros H. inversion H; subst; auto.
  - intros [H|H]; [apply denotes_alt_l | apply denotes_alt_r]; exact H.
Qed.

Lemma denotes_eps_iff (s : string) : denotes Eps s <-> s = "".
Proof. split; [intros H; now inversion H | intros ->; constructor]. Qed.

Lemma denotes_chr_iff (c : ascii) (s : string) :
  denotes (Chr c) s <-> s = String c "".
Proof. split; [intros H; now inversion H | intros ->; constructor]. Qed.

Lemma denotes_optional_iff (r : Regex) (s : string) :
  denotes (optional r) s <-> denotes r s \/ s = "".
Proof. unfold optional. now rewrite denotes_alt_iff, denotes_eps_iff. Qed.

Lemma denotes_literal_iff (x s : string) : denotes (literal x) s <-> s = x.
Proof.
  revert s. induction x as [|c x IH]; intros s; cbn.
  - apply denotes_eps_iff.
  - rewrite denotes_seq_iff. split.
    + intros (s1 & s2 & -> & H1 & H2).
      apply denotes_chr_iff in H1. apply IH in H2. now subst.
    + intros ->. exists (String c ""), x. repeat split.
      * constructor.
      * now apply IH.
Qed.

Lemma denotes_dots (s : string) :
  denotes (Star Dot) s <-> one_line s = true.
Proof.
  split.
  - intros H. remember (Star Dot) as r eqn:Hr.
    induction H as [ | | | | | | | r s1 s2 H1 _ H2 IH2 ]; try discriminate.
    + reflexivity.
    + injection Hr as ->. inversion H1 as [ | | c Hc | | | | | ]; subst.
      cbn. rewrite Hc. cbn. now apply IH2.
  - induction s as [|c s IH]; cbn; intros H.
    + constructor.
    + apply andb_prop in H as [Hc Hs]. apply negb_true_iff in Hc.
      change (String c s) with (String.append (String c "") s).
      constructor; [now constructor | now apply IH].
Qed.

Lemma denotes_one_or_more_dots (s : string) :
  denotes (one_or_more Dot) s <-> s <> "" /\ one_line s = true.
Proof.
  unfold one_or_more. rewrite denotes_seq_iff. split.
  - intros (s1 & s2 & -> & H1 & H2). apply denotes_dots in H2.
    inversion H1 as [ | | c Hc | | | | | ]; subst. cbn.
    rewrite Hc, H2. split; [discriminate | reflexivity].
  - intros [Hne H]. destruct s as [|c s]; [contradiction|].
    cbn in H. apply andb_prop in H as [Hc Hs]. apply negb_true_iff in Hc.
    exists (String c ""), s. repeat split; [now constructor|].
    now apply denotes_dots.
Qed.

(** ** Which URLs the form accepts *)

(** X23. The form accepts a URL exactly when it is, in this order: nothing,
    [http://] or [https://]; nothing or [www.]; [youtube.com], [youtu.be] or
    [youtube]; a slash; and at least one more character, none of them a line
    terminator.  So a URL with another subdomain, a leading blank or nothing
    after the slash is refused, and the bare word [youtube] passes for a
    host. *)
Theorem accepted_urls (url' : string) :
  test youtubeRegex url' = true
  <-> exists scheme www host rest,
        (scheme = "" \/ scheme = "http://" \/ scheme = "https://")
        /\ (www = "" \/ www = "www.")
        /\ (host = "youtube.com" \/ host = "youtu.be" \/ host = "youtube")
        /\ rest <> "" /\ one_line rest = true
        /\ url' = String.append scheme
                    (String.append www
                       (String.append host (String.append "/" rest))).
Proof.
  unfold test. rewrite matches_denotes. unfold youtubeRegex. split.
  - intros H.
    apply denotes_seq_iff in H as (scheme & s1 & -> & Hscheme & H).
    apply denotes_seq_iff in H as (www & s2 & -> & Hwww & H).
    apply denotes_seq_iff in H as (host & s3 & -> & Hhost & H).
    apply denotes_seq_iff in H as (slash & rest & -> & Hslash & Hrest).
    apply denotes_chr_iff in Hslash. subst slash.
    apply denotes_one_or_more_dots in Hrest as [Hne Hline].
    exists scheme, www, host, rest. repeat split; auto.
    + apply denotes_optional_iff in Hscheme as [Hscheme| ->]; [|auto].
      apply denotes_seq_iff in Hscheme as (h & s1 & -> & Hh & Hscheme).
      apply denotes_literal_iff in Hh. subst h.
      apply denotes_seq_iff in Hscheme as (o & s2 & -> & Ho & Hscheme).
      apply denotes_literal_iff in Hscheme. subst s2.
      apply denotes_optional_iff in Ho as [Ho| ->].
      * apply denotes_chr_iff in Ho. subst o. auto.
      * auto.
    + apply denotes_optional_iff in Hwww as [Hwww| ->]; [|auto].
      apply denotes_literal_iff in Hwww. auto.
    + apply denotes_alt_iff in Hhost as [Hhost|Hhost].
      * apply denotes_literal_iff in Hhost. auto.
      * apply denotes_seq_iff in Hhost as (y & s1 & -> & Hy & Hhost).
        apply denotes_literal_iff in Hy. subst y.
        apply denotes_seq_iff in Hhost as (o & s2 & -> & Ho & Hhost).
        apply denotes_literal_iff in Hhost. subst s2.
        apply denotes_optional_iff in Ho as [Ho| ->].
        -- apply denotes_chr_iff in Ho. subst o. auto.
        -- auto.
  - intros (scheme & www & host & rest & Hscheme & Hwww & Hhost & Hne & Hline
            & ->).
    constructor; [|constructor; [|constructor; [|constructor]]].
    + apply matches_denotes.
      destruct Hscheme as [-> |[-> | ->]]; reflexivity.
    + apply matches_denotes. destruct Hwww as [-> | ->]; reflexivity.
    + apply matches_denotes.
      destruct Hhost as [-> |[-> | ->]]; reflexivity.
    + constructor.
    + now apply denotes_one_or_more_dots.
Qed.


Section Handlers.

Context {B : Storage.Browser}.

(** ** [handleAnalyzeVideo] *)

(** X24. With an empty URL, a URL the pattern refuses, or a blank
    transcript, [handleAnalyzeVideo] sets the error message of the first of
    these checks that fails and does nothing else: no request is made, the
    store is untouched, and the chapters and the lesson shown stay. *)
Theorem invalid_form_only_sets_error
  (answer : Answer (list Storage.VideoChapter)) (w : World) :
  let a := state w in
  truthy (youtubeUrl a) = false
  \/ test youtubeRegex (youtubeUrl a) = false
  \/ blank (transcript a) = true ->
  handleAnalyzeVideo answer w
  = {| state :=
         with_error
           (Some (if negb (truthy (youtubeUrl a))
                  then "Please enter a YouTube URL."
                  else if negb (test youtubeRegex (youtubeUrl a))
                       then "Please enter a valid YouTube URL."
                       else "Please paste the video transcript.")) a;
       store := store w; requests := requests w |}.
Proof.
  cbv zeta. intros H. unfold handleAnalyzeVideo. rewrite truthy_trim.
  destruct (truthy (youtubeUrl (state w))); cbn; [|reflexivity].
  destruct (test youtubeRegex (youtubeUrl (state w))); cbn; [|reflexivity].
  destruct (blank (transcript (state w))); cbn; [reflexivity|].
  destruct H as [H|[H|H]]; discriminate.
Qed.

(** X25. When the form is valid and the analysis fails, the chapters, the
    selected chapter and the lesson that were shown are gone, the error
    message is the one of the analysis, the form is no longer analysing, one
    request was made for the form's URL and transcript, and the stored item
    and the list of saved lessons are as before. *)
Theorem failed_analysis_clears_results (message : string) (w : World) :
  let a := state w in
  truthy (youtubeUrl a) = true ->
  test youtubeRegex (youtubeUrl a) = true ->
  blank (transcript a) = false ->
  let w' := handleAnalyzeVideo (failed message) w in
  chapters (state w') = None
  /\ selectedChapter (state w') = None
  /\ lesson (state w') = None
  /\ isAnalyzing (state w') = false
  /\ error (state w')
     = Some "Failed to analyze the video. Please check the transcript and try again."
  /\ requests w'
     = requests w ++ [getVideoChapters (youtubeUrl a) (transcript a)]
  /\ Storage.item (store w') = Storage.item (store w)
  /\ savedLessonsData (state w') = savedLessonsData a.
Proof.
  cbv zeta. intros Hu Hr Ht. unfold handleAnalyzeVideo.
  rewrite truthy_trim, Hu, Hr, Ht. cbn. repeat split; reflexivity.
Qed.

Lemma saved_analysis_reads_back (url' transcript' : string)
  (chapters' : list Storage.VideoChapter) (st : Storage.Store) :
  let before := fst (Storage.getSavedLessons st) in
  let entry :=
    {| Storage.url := url'; Storage.transcript := transcript';
       Storage.chapters := chapters';
       Storage.lessons := match Storage.get url' before with
                          | Some data => Storage.lessons data
                          | None => []
                          end |} in
  let written := Storage.JSON_stringify (Storage.set url' entry before) in
  Storage.fits written = true ->
  truthy written = true ->
  Storage.JSON_parse written = Normal (Storage.set url' entry before) ->
  fst (Storage.getSavedLessons
         (Storage.saveVideoAnalysis url' transcript' chapters' st))
  = Storage.set url' entry before.
Proof.
  cbv zeta. intros Hfits Htruthy Hparse. unfold Storage.saveVideoAnalysis.
  destruct (Storage.getSavedLessons st) as [before st1]. cbn [fst] in *.
  replace (Storage.lessons
             match Storage.get url' before with
             | Some data => data
             | None => {| Storage.url := url'; Storage.transcript := transcript';
                          Storage.chapters := []; Storage.lessons := [] |}
             end)
    with (match Storage.get url' before with
          | Some data => Storage.lessons data
          | None => []
          end)
    by (destruct (Storage.get url' before); reflexivity).
  unfold Storage.setItem. rewrite Hfits.
  now rewrite (StorageFacts.read_back _ _ _ Htruthy Hparse).
Qed.

(** X26. When the form is valid and the analysis succeeds (and the written
    value fits and parses back), the chapters are shown, no lesson is shown
    and there is no error, and the list of saved lessons the form shows has
    this video with the new transcript and chapters and with the lessons
    that were saved for it before. *)
Theorem analysis_is_shown_and_saved
  (videoChapters : list Storage.VideoChapter) (w : World) :
  let a := state w in
  let before := fst (Storage.getSavedLessons (store w)) in
  let entry :=
    {| Storage.url := youtubeUrl a; Storage.transcript := transcript a;
       Storage.chapters := videoChapters;
       Storage.lessons := match Storage.get (youtubeUrl a) before with
                          | Some data => Storage.lessons data
                          | None => []
                          end |} in
  let written :=
    Storage.JSON_stringify (Storage.set (youtubeUrl a) entry before) in
  truthy (youtubeUrl a) = true ->
  test youtubeRegex (youtubeUrl a) = true ->
  blank (transcript a) = false ->
  Storage.fits written = true ->
  truthy written = true ->
  Storage.JSON_parse written
  = Normal (Storage.set (youtubeUrl a) entry before) ->
  let w' := handleAnalyzeVideo (answered videoChapters) w in
  chapters (state w') = Some videoChapters
  /\ lesson (state w') = None
  /\ error (state w') = None
  /\ isAnalyzing (state w') = false
  /\ Storage.get (youtubeUrl a) (savedLessonsData (state w')) = Some entry.
Proof.
  cbv zeta. intros Hu Hr Ht Hfits Htruthy Hparse. unfold handleAnalyzeVideo.
  rewrite truthy_trim, Hu, Hr, Ht. cbn [negb].
  pose proof (saved_analysis_reads_back (youtubeUrl (state w))
                (transcript (state w)) videoChapters (store w)
                Hfits Htruthy Hparse) as Hread.
  destruct (Storage.getSavedLessons
              (Storage.saveVideoAnalysis (youtubeUrl (state w))
                 (transcript (state w)) videoChapters (store w)))
    as [read saved']. cbn [fst] in Hread. subst read. cbn.
  repeat split. apply StorageFacts.get_set_same.
Qed.

(** ** [handleGenerateLesson] *)

Lemma getSavedLessons_reads_item (st st' : Storage.Store) :
  Storage.item st = Storage.item st' ->
  fst (Storage.getSavedLessons st) = fst (Storage.getSavedLessons st').
Proof.
  destruct st as [i c], st' as [i' c']. cbn. intros <-.
  unfold Storage.getSavedLessons. cbn. destruct i as [s|]; [|reflexivity].
  destruct (truthy s); [|reflexivity].
  destruct (Storage.JSON_parse s); reflexivity.
Qed.

(** X27. When the store has no entry for the URL that is in the form (the
    URL was edited after the analysis, the analysis could not be saved, or
    the saved lessons were cleared), a generated lesson is shown but not
    saved: the stored item is as before and the list of saved lessons still
    has no entry for that URL. *)
Theorem unsaved_lesson_is_still_shown (chapter : Storage.VideoChapter)
  (generated : Lesson) (w : World) :
  let a := state w in
  Storage.get (youtubeUrl a) (fst (Storage.getSavedLessons (store w)))
  = None ->
  let w' := handleGenerateLesson chapter (answered generated) w in
  lesson (state w') = Some generated
  /\ selectedChapter (state w') = Some chapter
  /\ error (state w') = None
  /\ isGenerating (state w') = false
  /\ Storage.item (store w') = Storage.item (store w)
  /\ Storage.get (youtubeUrl a) (savedLessonsData (state w')) = None.
Proof.
  cbv zeta. intros Hnone. unfold handleGenerateLesson.
  pose proof (StorageFacts.lesson_unknown_store (youtubeUrl (state w)) chapter
                generated (store w) Hnone) as Hitem.
  pose proof (getSavedLessons_reads_item _ _ Hitem) as Hread.
  pose proof (StorageFacts.getSavedLessons_item
                (Storage.saveLessonForVideo (youtubeUrl (state w)) chapter
                   generated (store w))) as Hitem'.
  destruct (Storage.getSavedLessons
              (Storage.saveLessonForVideo (youtubeUrl (state w)) chapter
                 generated (store w))) as [read saved'].
  cbn [fst snd] in *. cbn. rewrite Hitem', Hitem, Hread.
  repeat split. exact Hnone.
Qed.

(** X28. After [Clear All], a lesson generated for a chapter that is still
    on the screen is shown but not saved: the store stays empty and so does
    the list of saved lessons. *)
Theorem lesson_after_clear_is_not_saved (chapter : Storage.VideoChapter)
  (generated : Lesson) (w : World) :
  let w' := handleGenerateLesson chapter (answered generated)
              (handleClearSaved w) in
  lesson (state w') = Some generated
  /\ chapters (state w') = chapters (state w)
  /\ Storage.item (store w') = None
  /\ savedLessonsData (state w') = [].
Proof.
  cbv zeta. unfold handleGenerateLesson, handleClearSaved.
  unfold Storage.saveLessonForVideo, Storage.clearAllSavedData. cbn.
  destruct (Storage.inherited (youtubeUrl (state w))); cbn;
    repeat split; reflexivity.
Qed.

End Handlers.

(** ** On a concrete form *)

Lemma invalid_form_only_sets_error_witness :
  let B := Storage.sample_browser sample_lesson in
  error (state (handleAnalyzeVideo (answered [])
                  (sample_world sample_mobile_form None)))
  = Some "Please enter a valid YouTube URL.".
Proof.
  cbv zeta.
  assert (H : truthy (youtubeUrl (state (sample_world sample_mobile_form None)))
              = false
              \/ test youtubeRegex
                   (youtubeUrl (state (sample_world sample_mobile_form None)))
                 = false
              \/ blank (transcript
                          (state (sample_world sample_mobile_form None)))
                 = true) by (right; left; reflexivity).
  rewrite (@invalid_form_only_sets_error
             (Storage.sample_browser sample_lesson) (answered [])
             (sample_world sample_mobile_form None) H).
  reflexivity.
Defined.

Lemma failed_analysis_clears_results_witness :
  let B := Storage.sample_browser sample_lesson in
  let w' := handleAnalyzeVideo (failed "Failed to analyze the video.")
              (sample_world sample_form None) in
  chapters (state w') = None
  /\ requests w' = [getVideoChapters "https://youtu.be/abc" "hola"].
Proof.
  cbv zeta.
  assert (Hu : truthy "https://youtu.be/abc" = true) by reflexivity.
  assert (Hr : test youtubeRegex "https://youtu.be/abc" = true)
    by reflexivity.
  assert (Ht : blank "hola" = false) by reflexivity.
  destruct (@failed_analysis_clears_results
              (Storage.sample_browser sample_lesson)
              "Failed to analyze the video." (sample_world sample_form None)
              Hu Hr Ht) as (H1 & _ & _ & _ & _ & H2 & _).
  split; [exact H1 | exact H2].
Defined.

Lemma analysis_is_shown_and_saved_witness :
  let B := Storage.sample_browser sample_lesson in
  let w' := handleAnalyzeVideo (answered [Storage.sample_chapter])
              (sample_world sample_form None) in
  chapters (state w') = Some [Storage.sample_chapter]
  /\ savedLessonsData (state w') = Storage.sample_analysed.
Proof.
  cbv zeta. split; [|reflexivity].
  assert (Hu : truthy "https://youtu.be/abc" = true) by reflexivity.
  assert (Hr : test youtubeRegex "https://youtu.be/abc" = true)
    by reflexivity.
  assert (Ht : blank "hola" = false) by reflexivity.
  assert (Hfits : @Storage.fits (Storage.sample_browser sample_lesson)
                    "analysed" = true) by reflexivity.
  assert (Htruthy : truthy "analysed" = true) by reflexivity.
  assert (Hparse : @Storage.JSON_parse (Storage.sample_browser sample_lesson)
                     "analysed" = Normal Storage.sample_analysed)
    by reflexivity.
  destruct (@analysis_is_shown_and_saved
              (Storage.sample_browser sample_lesson) [Storage.sample_chapter]
              (sample_world sample_form None) Hu Hr Ht Hfits Htruthy Hparse)
    as (H & _).
  exact H.
Defined.

Lemma unsaved_lesson_is_still_shown_witness :
  let B := Storage.sample_browser sample_lesson in
  let w' := handleGenerateLesson Storage.sample_chapter
              (answered sample_lesson) (sample_world sample_form None) in
  lesson (state w') = Some sample_lesson
  /\ Storage.item (store w') = None.
Proof.
  cbv zeta.
  assert (Hnone : Storage.get "https://youtu.be/abc"
                    (fst (@Storage.getSavedLessons
                            (Storage.sample_browser sample_lesson)
                            {| Storage.item := None;
                               Storage.console := [] |})) = None)
    by reflexivity.
  destruct (@unsaved_lesson_is_still_shown
              (Storage.sample_browser sample_lesson) Storage.sample_chapter
              sample_lesson (sample_world sample_form None) Hnone)
    as (H1 & _ & _ & _ & H2 & _).
  split; [exact H1 | exact H2].
Defined.

End AppFacts.

(** * Properties of an exercise card *)

Module ExercisesFacts.
Import Exercises.

Lemma answered_stays (card : Card) (c : Click) :
  isAnswered card = true -> click card c = card.
Proof. intros H. destruct c; cbn; now rewrite H. Qed.

Lemma click_keeps_choice (card : Card) (c : Click) :
  (isAnswered card = true ->
   exists o, selectedOption card = Some o /\ truthy o = true) ->
  isAnswered (click card c) = true ->
  exists o, selectedOption (click card c) = Some o /\ truthy o = true.
Proof.
  intros Hcard. destruct c as [option|]; cbn.
  - destruct (isAnswered card) eqn:E; [auto | cbn; discriminate].
  - destruct (isAnswered card) eqn:E; cbn; [auto|].
    destruct (selectedOption card) as [o|]; cbn.
    + destruct (truthy o) eqn:Ho; cbn; [eauto | now rewrite E].
    + now rewrite E.
Qed.

(** X29. Whatever is clicked on a fresh card, once the card is answered an
    option was chosen and it is not the empty string (an empty option can be
    selected but never checked); no click changes the card any more; and an
    option is shown green exactly when it is the answer, red exactly when it
    is the chosen one and not the answer. *)
Theorem answered_card_is_final (clicks : list Click) (exercise : Exercise) :
  let card := fold_left click clicks fresh_card in
  isAnswered card = true ->
  (exists o, selectedOption card = Some o /\ truthy o = true)
  /\ (forall c, click card c = card)
  /\ forall option,
       getOptionClass exercise card option
       = if same option (answer exercise)
         then "bg-green-800/50 border-green-600"
         else if same option (selectedOption card)
              then "bg-red-800/50 border-red-600"
              else "border-gray-600".
Proof.
  cbv zeta. intros Hans. repeat split.
  - revert Hans.
    assert (H : forall cs card,
               (isAnswered card = true ->
                exists o, selectedOption card = Some o /\ truthy o = true) ->
               isAnswered (fold_left click cs card) = true ->
               exists o, selectedOption (fold_left click cs card) = Some o
                         /\ truthy o = true).
    { induction cs as [|c cs IH]; intros card Hcard; cbn; [exact Hcard|].
      apply IH. now apply click_keeps_choice. }
    apply H. discriminate.
  - intros c. now apply answered_stays.
  - intros option. unfold getOptionClass. rewrite Hans. cbn.
    destruct (same option (answer exercise)); [reflexivity|].
    cbn. now rewrite andb_true_r.
Qed.

Lemma answered_card_is_final_witness :
  let exercise := {| options := Some ["hola"; "adios"];
                     answer := Some "hola" |} in
  let card := fold_left click [click_option "adios"; click_check] fresh_card in
  isAnswered card = true
  /\ getOptionClass exercise card "adios" = "bg-red-800/50 border-red-600"
  /\ getOptionClass exercise card "hola" = "bg-green-800/50 border-green-600".
Proof.
  cbv zeta.
  assert (H : isAnswered (fold_left click [click_option "adios"; click_check]
                            fresh_card) = true) by reflexivity.
  destruct (answered_card_is_final [click_option "adios"; click_check]
              {| options := Some ["hola"; "adios"]; answer := Some "hola" |} H)
    as (_ & _ & Hclass).
  split; [exact H|].
  split; [exact (Hclass "adios") | exact (Hclass "hola")].
Defined.

End ExercisesFacts.
